(** * ConeAnimation: a SLERP cone visualiser (src/cone-animation.ts)

    A shallow embedding of the [ConeAnimation] class: its fields become a
    record, its methods become computations in a small state-and-exception
    monad over that record, the WebGL buffers become the arrays uploaded to
    them, and the canvas becomes the list of draw calls issued since it was
    last cleared.

    JavaScript numbers are modelled by real numbers extended with one
    not-a-number element (rounding is not modelled). *)

From Stdlib Require Import String Reals Lra Lia ZArith Bool List.
Import ListNotations.

(** ** JavaScript numbers *)

(** A JavaScript [number] is either a real or [NaN]; [NaN] stands for every
    result that is not a real number (the IEEE NaN and the two infinities).
    Arithmetic propagates [NaN], and every comparison with [NaN] is false. *)
Inductive num : Type :=
| Fin (r : R)
| NaN.

Declare Scope num_scope.
Delimit Scope num_scope with num.
Bind Scope num_scope with num.

Module Num.

Definition lift1 (f : R -> R) (a : num) : num :=
  match a with
  | Fin x => Fin (f x)
  | NaN => NaN
  end.

Definition lift2 (f : R -> R -> R) (a b : num) : num :=
  match a, b with
  | Fin x, Fin y => Fin (f x y)
  | _, _ => NaN
  end.

Definition add : num -> num -> num := lift2 Rplus.
Definition sub : num -> num -> num := lift2 Rminus.
Definition mul : num -> num -> num := lift2 Rmult.
Definition neg : num -> num := lift1 Ropp.

(** [a / b]: division by zero has no real result. *)
Definition div (a b : num) : num :=
  match a, b with
  | Fin x, Fin y => if Req_dec_T y 0 then NaN else Fin (x / y)
  | _, _ => NaN
  end.

(** [a < b], [a <= b], [a > b], [a >= b]. *)
Definition ltb (a b : num) : bool :=
  match a, b with
  | Fin x, Fin y => if Rlt_dec x y then true else false
  | _, _ => false
  end.

Definition leb (a b : num) : bool :=
  match a, b with
  | Fin x, Fin y => if Rle_dec x y then true else false
  | _, _ => false
  end.

Definition gtb (a b : num) : bool := ltb b a.
Definition geb (a b : num) : bool := leb b a.

Definition of_Z (z : Z) : num := Fin (IZR z).
Definition of_nat (n : nat) : num := Fin (INR n).

(** [Math.sqrt], [Math.sin], [Math.cos], [Math.acos], [Math.PI]. *)
Definition sqrt (a : num) : num :=
  match a with
  | Fin x => if Rlt_dec x 0 then NaN else Fin (R_sqrt.sqrt x)
  | NaN => NaN
  end.

Definition sin : num -> num := lift1 Rtrigo_def.sin.
Definition cos : num -> num := lift1 Rtrigo_def.cos.

Definition acos (a : num) : num :=
  match a with
  | Fin x =>
      if Rlt_dec x (-1) then NaN
      else if Rlt_dec 1 x then NaN
      else Fin (Ratan.acos x)
  | NaN => NaN
  end.

Definition PI : num := Fin Rtrigo1.PI.

Definition is_real (a : num) : Prop :=
  match a with
  | Fin _ => True
  | NaN => False
  end.

End Num.

Infix "+" := Num.add : num_scope.
Infix "-" := Num.sub : num_scope.
Infix "*" := Num.mul : num_scope.
Infix "/" := Num.div : num_scope.
Notation "- a" := (Num.neg a) : num_scope.
Infix "<?" := Num.ltb (at level 70, no associativity) : num_scope.
Infix "<=?" := Num.leb (at level 70, no associativity) : num_scope.
Infix ">?" := Num.gtb (at level 70, no associativity) : num_scope.
Infix ">=?" := Num.geb (at level 70, no associativity) : num_scope.

Local Open Scope R_scope.

(** ** gl-matrix

    [vec3] and [quat] of the gl-matrix package (imported at line 1 of
    cone-animation.ts).  The package is a dependency of the repository, not
    part of it; the functions below follow the package's own source
    (version 3), written functionally: the [out] argument of each function
    is its result.  The package keeps vectors in arrays of 32-bit floats;
    like all rounding, that of a store into such an array is not
    modelled. *)
Module GlMatrix.

Record Vec3 : Type := mkVec3 { v0 : num; v1 : num; v2 : num }.
Record Quat : Type := mkQuat { qx : num; qy : num; qz : num; qw : num }.

Definition EPSILON : num := Fin 0.000001.

Module vec3.

Definition fromValues (x y z : num) : Vec3 := mkVec3 x y z.

Definition clone (a : Vec3) : Vec3 := mkVec3 (v0 a) (v1 a) (v2 a).

Definition scale (a : Vec3) (b : num) : Vec3 :=
  mkVec3 (v0 a * b) (v1 a * b) (v2 a * b).

Definition dot (a b : Vec3) : num :=
  (v0 a * v0 b + v1 a * v1 b + v2 a * v2 b)%num.

Definition cross (a b : Vec3) : Vec3 :=
  let ax := v0 a in let ay := v1 a in let az := v2 a in
  let bx := v0 b in let b_y := v1 b in let bz := v2 b in
  mkVec3 (ay * bz - az * b_y) (az * bx - ax * bz) (ax * b_y - ay * bx).

(** [len]: the Euclidean length. *)
Definition len (a : Vec3) : num :=
  let x := v0 a in let y := v1 a in let z := v2 a in
  Num.sqrt (x * x + y * y + z * z).

(** [normalize]: a vector of squared length 0 is returned as it is (its
    components are multiplied by 0); nothing is thrown. *)
Definition normalize (a : Vec3) : Vec3 :=
  let x := v0 a in let y := v1 a in let z := v2 a in
  let len := (x * x + y * y + z * z)%num in
  let len := if (len >? Fin 0)%num then (Fin 1 / Num.sqrt len)%num else len in
  mkVec3 (v0 a * len) (v1 a * len) (v2 a * len).

End vec3.

Module quat.

(** [create]: the identity quaternion. *)
Definition create : Quat := mkQuat (Fin 0) (Fin 0) (Fin 0) (Fin 1).

Definition setAxisAngle (axis : Vec3) (rad : num) : Quat :=
  let rad := (rad * Fin 0.5)%num in
  let s := Num.sin rad in
  mkQuat (s * v0 axis) (s * v1 axis) (s * v2 axis) (Num.cos rad).

(** [normalize] (that of vec4). *)
Definition normalize (a : Quat) : Quat :=
  let x := qx a in let y := qy a in let z := qz a in let w := qw a in
  let len := (x * x + y * y + z * z + w * w)%num in
  let len := if (len >? Fin 0)%num then (Fin 1 / Num.sqrt len)%num else len in
  mkQuat (x * len) (y * len) (z * len) (w * len).

(** [rotationTo a b]: the shortest rotation from the unit vector [a] to
    the unit vector [b]. *)
Definition rotationTo (a b : Vec3) : Quat :=
  let xUnitVec3 := vec3.fromValues (Fin 1) (Fin 0) (Fin 0) in
  let yUnitVec3 := vec3.fromValues (Fin 0) (Fin 1) (Fin 0) in
  let dot := vec3.dot a b in
  if (dot <? Fin (-0.999999))%num then
    let tmpvec3 := vec3.cross xUnitVec3 a in
    let tmpvec3 :=
      if (vec3.len tmpvec3 <? Fin 0.000001)%num
      then vec3.cross yUnitVec3 a else tmpvec3 in
    let tmpvec3 := vec3.normalize tmpvec3 in
    setAxisAngle tmpvec3 Num.PI
  else if (dot >? Fin 0.999999)%num then
    mkQuat (Fin 0) (Fin 0) (Fin 0) (Fin 1)
  else
    let tmpvec3 := vec3.cross a b in
    normalize (mkQuat (v0 tmpvec3) (v1 tmpvec3) (v2 tmpvec3) (Fin 1 + dot)).

(** [slerp a b t]. *)
Definition slerp (a b : Quat) (t : num) : Quat :=
  let ax := qx a in let ay := qy a in let az := qz a in let aw := qw a in
  let bx := qx b in let b_y := qy b in let bz := qz b in let bw := qw b in
  let cosom := (ax * bx + ay * b_y + az * bz + aw * bw)%num in
  let '(cosom, bx, b_y, bz, bw) :=
    if (cosom <? Fin 0)%num
    then ((- cosom)%num, (- bx)%num, (- b_y)%num, (- bz)%num, (- bw)%num)
    else (cosom, bx, b_y, bz, bw) in
  let '(scale0, scale1) :=
    if (Fin 1 - cosom >? EPSILON)%num then
      let omega := Num.acos cosom in
      let sinom := Num.sin omega in
      ((Num.sin ((Fin 1 - t) * omega) / sinom)%num,
       (Num.sin (t * omega) / sinom)%num)
    else
      ((Fin 1 - t)%num, t) in
  mkQuat (scale0 * ax + scale1 * bx) (scale0 * ay + scale1 * b_y)
         (scale0 * az + scale1 * bz) (scale0 * aw + scale1 * bw).

End quat.

End GlMatrix.
Import GlMatrix.


(** ** The fields of the class *)

Record ConeParams : Type := mkConeParams {
  radius : num;
  height : num;
  segments : Z  (* a whole number of segments *)
}.

(** [Partial<ConeParams>]: every field may be absent. *)
Record PartialConeParams : Type := mkPartialConeParams {
  radius_opt : option num;
  height_opt : option num;
  segments_opt : option Z
}.

Record Orientation : Type := mkOrientation {
  axis : Vec3;
  quat : Quat
}.

(** What the WebGL context has been asked to draw: a line segment of one
    of the two line buffers, or the cone ([drawElements]) under the model
    matrix of a quaternion and with the uniform [uAlpha]. *)
Inductive LineBuffer : Type := AxisLines | DirectionLines.

Inductive DrawCall : Type :=
| DrawLine (buffer : LineBuffer) (red green blue : num) (first : Z)
| DrawCone (quaternion : Quat) (alpha : num) (count : Z).

(** The object.  [canvas] is the colour buffer: the draw calls issued since
    it was last cleared.  [program] is whether [this.program] is non-null.
    A WebGL buffer is modelled by the array uploaded to it ([None]: null). *)
Record ConeAnimation : Type := mkConeAnimation {
  canvas : list DrawCall;
  program : bool;
  coneBuffer : option (list num);
  coneNormalBuffer : option (list num);
  coneIndexBuffer : option (list Z);
  axisBuffer : option (list num);
  directionVectorBuffer : option (list num);
  coneParams : ConeParams;
  coneVertexCount : Z;
  startOrientation : Orientation;
  endOrientation : Orientation;
  animationProgress : num;
  isAnimating : bool;
  animationSpeed : num;
  showIntermediateFrames : bool;
  intermediateFrames : list Quat;
  loopAnimation : bool
}.

(** Assignment to one field. *)
Definition set_canvas (v : list DrawCall) (this : ConeAnimation) : ConeAnimation :=
  {| canvas := v; program := program this; coneBuffer := coneBuffer this;
     coneNormalBuffer := coneNormalBuffer this;
     coneIndexBuffer := coneIndexBuffer this;
     axisBuffer := axisBuffer this;
     directionVectorBuffer := directionVectorBuffer this;
     coneParams := coneParams this;
     coneVertexCount := coneVertexCount this;
     startOrientation := startOrientation this;
     endOrientation := endOrientation this;
     animationProgress := animationProgress this;
     isAnimating := isAnimating this;
     animationSpeed := animationSpeed this;
     showIntermediateFrames := showIntermediateFrames this;
     intermediateFrames := intermediateFrames this;
     loopAnimation := loopAnimation this |}.

Definition set_program (v : bool) (this : ConeAnimation) : ConeAnimation :=
  {| canvas := canvas this; program := v; coneBuffer := coneBuffer this;
     coneNormalBuffer := coneNormalBuffer this;
     coneIndexBuffer := coneIndexBuffer this;
     axisBuffer := axisBuffer this;
     directionVectorBuffer := directionVectorBuffer this;
     coneParams := coneParams this;
     coneVertexCount := coneVertexCount this;
     startOrientation := startOrientation this;
     endOrientation := endOrientation this;
     animationProgress := animationProgress this;
     isAnimating := isAnimating this;
     animationSpeed := animationSpeed this;
     showIntermediateFrames := showIntermediateFrames this;
     intermediateFrames := intermediateFrames this;
     loopAnimation := loopAnimation this |}.

Definition set_coneBuffer (v : option (list num)) (this : ConeAnimation) : ConeAnimation :=
  {| canvas := canvas this; program := program this; coneBuffer := v;
     coneNormalBuffer := coneNormalBuffer this;
     coneIndexBuffer := coneIndexBuffer this;
     axisBuffer := axisBuffer this;
     directionVectorBuffer := directionVectorBuffer this;
     coneParams := coneParams this;
     coneVertexCount := coneVertexCount this;
     startOrientation := startOrientation this;
     endOrientation := endOrientation this;
     animationProgress := animationProgress this;
     isAnimating := isAnimating this;
     animationSpeed := animationSpeed this;
     showIntermediateFrames := showIntermediateFrames this;
     intermediateFrames := intermediateFrames this;
     loopAnimation := loopAnimation this |}.

Definition set_coneNormalBuffer (v : option (list num)) (this : ConeAnimation) : ConeAnimation :=
  {| canvas := canvas this; program := program this;
     coneBuffer := coneBuffer this; coneNormalBuffer := v;
     coneIndexBuffer := coneIndexBuffer this;
     axisBuffer := axisBuffer this;
     directionVectorBuffer := directionVectorBuffer this;
     coneParams := coneParams this;
     coneVertexCount := coneVertexCount this;
     startOrientation := startOrientation this;
     endOrientation := endOrientation this;
     animationProgress := animationProgress this;
     isAnimating := isAnimating this;
     animationSpeed := animationSpeed this;
     showIntermediateFrames := showIntermediateFrames this;
     intermediateFrames := intermediateFrames this;
     loopAnimation := loopAnimation this |}.

Definition set_coneIndexBuffer (v : option (list Z)) (this : ConeAnimation) : ConeAnimation :=
  {| canvas := canvas this; program := program this;
     coneBuffer := coneBuffer this;
     coneNormalBuffer := coneNormalBuffer this; coneIndexBuffer := v;
     axisBuffer := axisBuffer this;
     directionVectorBuffer := directionVectorBuffer this;
     coneParams := coneParams this;
     coneVertexCount := coneVertexCount this;
     startOrientation := startOrientation this;
     endOrientation := endOrientation this;
     animationProgress := animationProgress this;
     isAnimating := isAnimating this;
     animationSpeed := animationSpeed this;
     showIntermediateFrames := showIntermediateFrames this;
     intermediateFrames := intermediateFrames this;
     loopAnimation := loopAnimation this |}.

Definition set_axisBuffer (v : option (list num)) (this : ConeAnimation) : ConeAnimation :=
  {| canvas := canvas this; program := program this;
     coneBuffer := coneBuffer this;
     coneNormalBuffer := coneNormalBuffer this;
     coneIndexBuffer := coneIndexBuffer this; axisBuffer := v;
     directionVectorBuffer := directionVectorBuffer this;
     coneParams := coneParams this;
     coneVertexCount := coneVertexCount this;
     startOrientation := startOrientation this;
     endOrientation := endOrientation this;
     animationProgress := animationProgress this;
     isAnimating := isAnimating this;
     animationSpeed := animationSpeed this;
     showIntermediateFrames := showIntermediateFrames this;
     intermediateFrames := intermediateFrames this;
     loopAnimation := loopAnimation this |}.

Definition set_directionVectorBuffer (v : option (list num)) (this : ConeAnimation) : ConeAnimation :=
  {| canvas := canvas this; program := program this;
     coneBuffer := coneBuffer this;
     coneNormalBuffer := coneNormalBuffer this;
     coneIndexBuffer := coneIndexBuffer this;
     axisBuffer := axisBuffer this; directionVectorBuffer := v;
     coneParams := coneParams this;
     coneVertexCount := coneVertexCount this;
     startOrientation := startOrientation this;
     endOrientation := endOrientation this;
     animationProgress := animationProgress this;
     isAnimating := isAnimating this;
     animationSpeed := animationSpeed this;
     showIntermediateFrames := showIntermediateFrames this;
     intermediateFrames := intermediateFrames this;
     loopAnimation := loopAnimation this |}.

Definition set_coneParams (v : ConeParams) (this : ConeAnimation) : ConeAnimation :=
  {| canvas := canvas this; program := program this;
     coneBuffer := coneBuffer this;
     coneNormalBuffer := coneNormalBuffer this;
     coneIndexBuffer := coneIndexBuffer this;
     axisBuffer := axisBuffer this;
     directionVectorBuffer := directionVectorBuffer this; coneParams := v;
     coneVertexCount := coneVertexCount this;
     startOrientation := startOrientation this;
     endOrientation := endOrientation this;
     animationProgress := animationProgress this;
     isAnimating := isAnimating this;
     animationSpeed := animationSpeed this;
     showIntermediateFrames := showIntermediateFrames this;
     intermediateFrames := intermediateFrames this;
     loopAnimation := loopAnimation this |}.

Definition set_coneVertexCount (v : Z) (this : ConeAnimation) : ConeAnimation :=
  {| canvas := canvas this; program := program this;
     coneBuffer := coneBuffer this;
     coneNormalBuffer := coneNormalBuffer this;
     coneIndexBuffer := coneIndexBuffer this;
     axisBuffer := axisBuffer this;
     directionVectorBuffer := directionVectorBuffer this;
     coneParams := coneParams this; coneVertexCount := v;
     startOrientation := startOrientation this;
     endOrientation := endOrientation this;
     animationProgress := animationProgress this;
     isAnimating := isAnimating this;
     animationSpeed := animationSpeed this;
     showIntermediateFrames := showIntermediateFrames this;
     intermediateFrames := intermediateFrames this;
     loopAnimation := loopAnimation this |}.

Definition set_startOrientation (v : Orientation) (this : ConeAnimation) : ConeAnimation :=
  {| canvas := canvas this; program := program this;
     coneBuffer := coneBuffer this;
     coneNormalBuffer := coneNormalBuffer this;
     coneIndexBuffer := coneIndexBuffer this;
     axisBuffer := axisBuffer this;
     directionVectorBuffer := directionVectorBuffer this;
     coneParams := coneParams this;
     coneVertexCount := coneVertexCount this; startOrientation := v;
     endOrientation := endOrientation this;
     animationProgress := animationProgress this;
     isAnimating := isAnimating this;
     animationSpeed := animationSpeed this;
     showIntermediateFrames := showIntermediateFrames this;
     intermediateFrames := intermediateFrames this;
     loopAnimation := loopAnimation this |}.

Definition set_endOrientation (v : Orientation) (this : ConeAnimation) : ConeAnimation :=
  {| canvas := canvas this; program := program this;
     coneBuffer := coneBuffer this;
     coneNormalBuffer := coneNormalBuffer this;
     coneIndexBuffer := coneIndexBuffer this;
     axisBuffer := axisBuffer this;
     directionVectorBuffer := directionVectorBuffer this;
     coneParams := coneParams this;
     coneVertexCount := coneVertexCount this;
     startOrientation := startOrientation this; endOrientation := v;
     animationProgress := animationProgress this;
     isAnimating := isAnimating this;
     animationSpeed := animationSpeed this;
     showIntermediateFrames := showIntermediateFrames this;
     intermediateFrames := intermediateFrames this;
     loopAnimation := loopAnimation this |}.

Definition set_animationProgress (v : num) (this : ConeAnimation) : ConeAnimation :=
  {| canvas := canvas this; program := program this;
     coneBuffer := coneBuffer this;
     coneNormalBuffer := coneNormalBuffer this;
     coneIndexBuffer := coneIndexBuffer this;
     axisBuffer := axisBuffer this;
     directionVectorBuffer := directionVectorBuffer this;
     coneParams := coneParams this;
     coneVertexCount := coneVertexCount this;
     startOrientation := startOrientation this;
     endOrientation := endOrientation this; animationProgress := v;
     isAnimating := isAnimating this;
     animationSpeed := animationSpeed this;
     showIntermediateFrames := showIntermediateFrames this;
     intermediateFrames := intermediateFrames this;
     loopAnimation := loopAnimation this |}.

Definition set_isAnimating (v : bool) (this : ConeAnimation) : ConeAnimation :=
  {| canvas := canvas this; program := program this;
     coneBuffer := coneBuffer this;
     coneNormalBuffer := coneNormalBuffer this;
     coneIndexBuffer := coneIndexBuffer this;
     axisBuffer := axisBuffer this;
     directionVectorBuffer := directionVectorBuffer this;
     coneParams := coneParams this;
     coneVertexCount := coneVertexCount this;
     startOrientation := startOrientation this;
     endOrientation := endOrientation this;
     animationProgress := animationProgress this; isAnimating := v;
     animationSpeed := animationSpeed this;
     showIntermediateFrames := showIntermediateFrames this;
     intermediateFrames := intermediateFrames this;
     loopAnimation := loopAnimation this |}.

Definition set_animationSpeed (v : num) (this : ConeAnimation) : ConeAnimation :=
  {| canvas := canvas this; program := program this;
     coneBuffer := coneBuffer this;
     coneNormalBuffer := coneNormalBuffer this;
     coneIndexBuffer := coneIndexBuffer this;
     axisBuffer := axisBuffer this;
     directionVectorBuffer := directionVectorBuffer this;
     coneParams := coneParams this;
     coneVertexCount := coneVertexCount this;
     startOrientation := startOrientation this;
     endOrientation := endOrientation this;
     animationProgress := animationProgress this;
     isAnimating := isAnimating this; animationSpeed := v;
     showIntermediateFrames := showIntermediateFrames this;
     intermediateFrames := intermediateFrames this;
     loopAnimation := loopAnimation this |}.

Definition set_showIntermediateFrames (v : bool) (this : ConeAnimation) : ConeAnimation :=
  {| canvas := canvas this; program := program this;
     coneBuffer := coneBuffer this;
     coneNormalBuffer := coneNormalBuffer this;
     coneIndexBuffer := coneIndexBuffer this;
     axisBuffer := axisBuffer this;
     directionVectorBuffer := directionVectorBuffer this;
     coneParams := coneParams this;
     coneVertexCount := coneVertexCount this;
     startOrientation := startOrientation this;
     endOrientation := endOrientation this;
     animationProgress := animationProgress this;
     isAnimating := isAnimating this;
     animationSpeed := animationSpeed this; showIntermediateFrames := v;
     intermediateFrames := intermediateFrames this;
     loopAnimation := loopAnimation this |}.

Definition set_intermediateFrames (v : list Quat) (this : ConeAnimation) : ConeAnimation :=
  {| canvas := canvas this; program := program this;
     coneBuffer := coneBuffer this;
     coneNormalBuffer := coneNormalBuffer this;
     coneIndexBuffer := coneIndexBuffer this;
     axisBuffer := axisBuffer this;
     directionVectorBuffer := directionVectorBuffer this;
     coneParams := coneParams this;
     coneVertexCount := coneVertexCount this;
     startOrientation := startOrientation this;
     endOrientation := endOrientation this;
     animationProgress := animationProgress this;
     isAnimating := isAnimating this;
     animationSpeed := animationSpeed this;
     showIntermediateFrames := showIntermediateFrames this;
     intermediateFrames := v; loopAnimation := loopAnimation this |}.

Definition set_loopAnimation (v : bool) (this : ConeAnimation) : ConeAnimation :=
  {| canvas := canvas this; program := program this;
     coneBuffer := coneBuffer this;
     coneNormalBuffer := coneNormalBuffer this;
     coneIndexBuffer := coneIndexBuffer this;
     axisBuffer := axisBuffer this;
     directionVectorBuffer := directionVectorBuffer this;
     coneParams := coneParams this;
     coneVertexCount := coneVertexCount this;
     startOrientation := startOrientation this;
     endOrientation := endOrientation this;
     animationProgress := animationProgress this;
     isAnimating := isAnimating this;
     animationSpeed := animationSpeed this;
     showIntermediateFrames := showIntermediateFrames this;
     intermediateFrames := intermediateFrames this; loopAnimation := v |}.

(** ** Methods as computations on the object *)

(** A method call either returns a value or throws a JavaScript [Error]
    with a message; either way it leaves the object in a state: what was
    assigned before a throw stays assigned. *)
Inductive outcome (A : Type) : Type :=
| Returned (value : A) (this : ConeAnimation)
| Thrown (message : string) (this : ConeAnimation).

Arguments Returned {A} value this.
Arguments Thrown {A} message this.

(** The object after the call. *)
Definition after {A : Type} (o : outcome A) : ConeAnimation :=
  match o with
  | Returned _ this => this
  | Thrown _ this => this
  end.

Definition M (A : Type) : Type := ConeAnimation -> outcome A.

Definition ret {A : Type} (a : A) : M A := fun this => Returned a this.

Definition bind {A B : Type} (m : M A) (k : A -> M B) : M B :=
  fun this =>
    match m this with
    | Returned a this' => k a this'
    | Thrown message this' => Thrown message this'
    end.

Definition throw {A : Type} (message : string) : M A :=
  fun this => Thrown message this.

(** Reading a field, and assigning one (with a [set_] function). *)
Definition read {A : Type} (field : ConeAnimation -> A) : M A :=
  fun this => Returned (field this) this.

Definition assign (update : ConeAnimation -> ConeAnimation) : M unit :=
  fun this => Returned tt (update this).

Declare Scope monad_scope.
Delimit Scope monad_scope with monad.
Bind Scope monad_scope with M.
Notation "x <- c1 ;; c2" := (bind c1 (fun x => c2))
  (at level 61, c1 at next level, right associativity) : monad_scope.
Notation "c1 ;; c2" := (bind c1 (fun _ => c2))
  (at level 61, right associativity) : monad_scope.
Local Open Scope monad_scope.

(** [for (const i of l) body(i)]. *)
Fixpoint for_each {A : Type} (l : list A) (body : A -> M unit) : M unit :=
  match l with
  | [] => ret tt
  | i :: l' => body i ;; for_each l' body
  end.

(** The values of [i] in [for (let i = lo; i < hi; i++)]. *)
Definition range (lo hi : Z) : list Z :=
  map (fun k => (lo + Z.of_nat k)%Z) (seq 0 (Z.to_nat (hi - lo))).

(** [new Uint16Array(indices)]: every element is taken modulo 2^16. *)
Definition Uint16Array (indices : list Z) : list Z :=
  map (fun i => (i mod 65536)%Z) indices.

(** Lines 65-74. *)
Definition generateIntermediateFrames : M unit :=
  assign (set_intermediateFrames []) ;;
  let steps := 20%nat in
  for_each (seq 0 (steps + 1)) (fun i =>
    let t := (Num.of_nat i / Num.of_nat steps)%num in
    s <- read startOrientation ;;
    e <- read endOrientation ;;
    let q := quat.slerp (quat s) (quat e) t in
    frames <- read intermediateFrames ;;
    assign (set_intermediateFrames (frames ++ [q]))).

(** Lines 56-63.  [quat.rotationTo] writes into the quaternion of the
    orientation; the axis is untouched. *)
Definition updateOrientationQuaternions : M unit :=
  let upVector := vec3.fromValues (Fin 0) (Fin 1) (Fin 0) in
  s <- read startOrientation ;;
  assign (set_startOrientation
            (mkOrientation (axis s) (quat.rotationTo upVector (axis s)))) ;;
  e <- read endOrientation ;;
  assign (set_endOrientation
            (mkOrientation (axis e) (quat.rotationTo upVector (axis e)))) ;;
  generateIntermediateFrames.

(** The three local arrays of [generateCone] (lines 129-164):
    [vertices], [normals] and [indices]. *)
Definition coneArrays (p : ConeParams) : list num * list num * list Z :=
  let radius := radius p in
  let height := height p in
  let segments := segments p in
  let vertices := [Fin 0; (height / Fin 2)%num; Fin 0] in
  let normals := [Fin 0; Fin 1; Fin 0] in
  let indices := @nil Z in
  let sideNormalY :=
    (radius / Num.sqrt (radius * radius + height * height))%num in
  let sideNormalXZ :=
    (height / Num.sqrt (radius * radius + height * height))%num in
  let '(vertices, normals) :=
    fold_left
      (fun '(vertices, normals) i =>
         let theta :=
           (Num.of_Z i / Num.of_Z segments * Num.PI * Fin 2)%num in
         let x := (radius * Num.cos theta)%num in
         let z := (radius * Num.sin theta)%num in
         (vertices ++ [x; (- height / Fin 2)%num; z],
          normals ++ [(sideNormalXZ * Num.cos theta)%num;
                      sideNormalY;
                      (sideNormalXZ * Num.sin theta)%num]))
      (range 0 (segments + 1)) (vertices, normals) in
  let indices :=
    fold_left (fun indices i => indices ++ [0; i + 1; i + 2])%Z
              (range 0 segments) indices in
  let baseCenter := (Z.of_nat (length vertices) / 3)%Z in
  let vertices := vertices ++ [Fin 0; (- height / Fin 2)%num; Fin 0] in
  let normals := normals ++ [Fin 0; Fin (-1); Fin 0] in
  let indices :=
    fold_left (fun indices i => indices ++ [baseCenter; i + 1; i])%Z
              (rev (range 1 (segments + 1))) indices in
  (vertices, normals, indices).

(** Lines 128-179. *)
Definition generateCone : M unit :=
  p <- read coneParams ;;
  let '(vertices, normals, indices) := coneArrays p in
  assign (set_coneVertexCount (Z.of_nat (length indices))) ;;
  assign (set_coneBuffer (Some vertices)) ;;
  assign (set_coneNormalBuffer (Some normals)) ;;
  assign (set_coneIndexBuffer (Some (Uint16Array indices))).

(** Lines 181-192. *)
Definition generateAxisLines : M unit :=
  let axisLength := Fin 3 in
  let vertices :=
    [Fin 0; Fin 0; Fin 0; axisLength; Fin 0; Fin 0;
     Fin 0; Fin 0; Fin 0; Fin 0; axisLength; Fin 0;
     Fin 0; Fin 0; Fin 0; Fin 0; Fin 0; axisLength] in
  assign (set_axisBuffer (Some vertices)).

(** Lines 194-210. *)
Definition generateDirectionVectors : M unit :=
  p <- read coneParams ;;
  let vectorLength := (height p * Fin 1.5)%num in
  s <- read startOrientation ;;
  e <- read endOrientation ;;
  let startDir := vec3.clone (axis s) in
  let endDir := vec3.clone (axis e) in
  let startDir := vec3.scale startDir vectorLength in
  let endDir := vec3.scale endDir vectorLength in
  let vertices :=
    [Fin 0; Fin 0; Fin 0; v0 startDir; v1 startDir; v2 startDir;
     Fin 0; Fin 0; Fin 0; v0 endDir; v1 endDir; v2 endDir] in
  assign (set_directionVectorBuffer (Some vertices)).

(** A draw call is appended to the canvas. *)
Definition draw (d : DrawCall) : M unit :=
  c <- read canvas ;;
  assign (set_canvas (c ++ [d])).

(** Lines 212-269: the model matrix is the rotation of [quaternion], and
    [uAlpha] is [alpha]. *)
Definition drawCone (quaternion : Quat) (alpha : num) : M unit :=
  prog <- read program ;;
  if negb prog then ret tt
  else
    n <- read coneVertexCount ;;
    draw (DrawCone quaternion alpha n).

(** Lines 271-328. *)
Definition drawAxes : M unit :=
  prog <- read program ;;
  if negb prog then ret tt
  else
    draw (DrawLine AxisLines (Fin 1) (Fin 0) (Fin 0) 0) ;;
    draw (DrawLine AxisLines (Fin 0) (Fin 1) (Fin 0) 2) ;;
    draw (DrawLine AxisLines (Fin 0) (Fin 0) (Fin 1) 4).

(** Lines 330-387. *)
Definition drawDirectionVectors : M unit :=
  prog <- read program ;;
  if negb prog then ret tt
  else
    draw (DrawLine DirectionLines (Fin 1) (Fin 1) (Fin 0) 0) ;;
    draw (DrawLine DirectionLines (Fin 1) (Fin 0.5) (Fin 0) 2).

(** Lines 408-418 of [render]: the animation clock moves by one frame. *)
Definition advance : M unit :=
  animating <- read isAnimating ;;
  if animating then
    p <- read animationProgress ;;
    speed <- read animationSpeed ;;
    assign (set_animationProgress (p + speed)) ;;
    p <- read animationProgress ;;
    if (p >=? Fin 1)%num then
      loop <- read loopAnimation ;;
      if loop then
        assign (set_animationProgress (Fin 0))
      else
        assign (set_animationProgress (Fin 1)) ;;
        assign (set_isAnimating false)
    else ret tt
  else ret tt.

(** Lines 399-400 of [render]: the body of the loop over the table.
    Reading an array past its end gives [undefined], which [mat4.fromQuat]
    cannot read. *)
Definition drawTrailCone (i : nat) : M unit :=
  table <- read intermediateFrames ;;
  let alpha :=
    (Fin 0.15 + Num.of_nat i / Num.of_nat (length table) * Fin 0.3)%num in
  match nth_error table i with
  | Some q => drawCone q alpha
  | None => throw "TypeError: Cannot read properties of undefined"
  end.

(** Lines 397-406 of [render]: the trail of cones, or the one cone. *)
Definition drawCones : M unit :=
  show <- read showIntermediateFrames ;;
  animating <- read isAnimating ;;
  if show && negb animating then
    table <- read intermediateFrames ;;
    for_each (seq 0 (length table)) drawTrailCone
  else
    s <- read startOrientation ;;
    e <- read endOrientation ;;
    p <- read animationProgress ;;
    let currentQuat := quat.slerp (quat s) (quat e) p in
    drawCone currentQuat (Fin 1).

(** Lines 389-421: one frame.  The call of [requestAnimationFrame] asks the
    browser for the next one (see [Frame] below). *)
Definition render : M unit :=
  assign (set_canvas []) ;;
  drawAxes ;;
  drawDirectionVectors ;;
  drawCones ;;
  advance.

(** Lines 423-468: the public methods. *)
Definition startAnimation : M unit :=
  assign (set_isAnimating true) ;;
  assign (set_animationProgress (Fin 0)).

Definition stopAnimation : M unit :=
  assign (set_isAnimating false).

Definition resetAnimation : M unit :=
  assign (set_animationProgress (Fin 0)) ;;
  assign (set_isAnimating false).

Definition setAnimationSpeed (speed : num) : M unit :=
  assign (set_animationSpeed speed).

Definition setShowIntermediateFrames (show : bool) : M unit :=
  assign (set_showIntermediateFrames show).

(** [{ ...this.coneParams, ...params }]. *)
Definition spread (old : ConeParams) (params : PartialConeParams)
  : ConeParams :=
  mkConeParams
    (match radius_opt params with Some r => r | None => radius old end)
    (match height_opt params with Some h => h | None => height old end)
    (match segments_opt params with Some n => n | None => segments old end).

Definition setConeParams (params : PartialConeParams) : M unit :=
  old <- read coneParams ;;
  assign (set_coneParams (spread old params)) ;;
  generateCone.

Definition setStartAxis (v : Vec3) : M unit :=
  s <- read startOrientation ;;
  assign (set_startOrientation (mkOrientation (vec3.normalize v) (quat s))) ;;
  updateOrientationQuaternions ;;
  generateDirectionVectors.

Definition setEndAxis (v : Vec3) : M unit :=
  e <- read endOrientation ;;
  assign (set_endOrientation (mkOrientation (vec3.normalize v) (quat e))) ;;
  updateOrientationQuaternions ;;
  generateDirectionVectors.

Definition setLoopAnimation (loop : bool) : M unit :=
  assign (set_loopAnimation loop).

Definition getAnimationProgress : M num :=
  read animationProgress.

(** Lines 14-54: the field initialisers and the constructor.  [webgl] is
    whether the canvas gives a WebGL context.  The two orientations are
    assigned by the constructor before anything reads them. *)
Definition fieldInitialisers : ConeAnimation :=
  {| canvas := [];
     program := false;
     coneBuffer := None;
     coneNormalBuffer := None;
     coneIndexBuffer := None;
     axisBuffer := None;
     directionVectorBuffer := None;
     coneParams := mkConeParams (Fin 1) (Fin 2) 32;
     coneVertexCount := 0;
     startOrientation :=
       mkOrientation (vec3.fromValues (Fin 0) (Fin 1) (Fin 0)) quat.create;
     endOrientation :=
       mkOrientation (vec3.fromValues (Fin 1) (Fin 0) (Fin 0)) quat.create;
     animationProgress := Fin 0;
     isAnimating := false;
     animationSpeed := Fin 0.01;
     showIntermediateFrames := true;
     intermediateFrames := [];
     loopAnimation := true |}.

Definition constructor (webgl : bool) : M unit :=
  if negb webgl then throw "WebGL not supported"
  else
    assign (set_startOrientation
              (mkOrientation (vec3.fromValues (Fin 0) (Fin 1) (Fin 0))
                             quat.create)) ;;
    assign (set_endOrientation
              (mkOrientation (vec3.fromValues (Fin 1) (Fin 0) (Fin 0))
                             quat.create)) ;;
    updateOrientationQuaternions.

(** [new ConeAnimation(canvasId)]. *)
Definition new (webgl : bool) : outcome unit :=
  constructor webgl fieldInitialisers.

(** Lines 81-126.  [vertexOk], [fragmentOk] and [linkOk] are the compile
    and link statuses the WebGL context reports, [info] its log. *)
Definition createShader (compileStatus : bool) (info : string) : M unit :=
  if negb compileStatus
  then throw ("Shader compilation error: " ++ info)
  else ret tt.

Definition createProgram (linkStatus : bool) (info : string) : M unit :=
  if negb linkStatus
  then throw ("Program linking error: " ++ info)
  else ret tt.

Definition initialize (vertexOk fragmentOk linkOk : bool) (info : string)
  : M unit :=
  createShader vertexOk info ;;
  createShader fragmentOk info ;;
  createProgram linkOk info ;;
  assign (set_program true) ;;
  generateCone ;;
  generateAxisLines ;;
  generateDirectionVectors ;;
  render.

(** ** Runs of the object *)

(** What can happen to a constructed object: a call of a public method by
    the page, or the browser running the frame that [render] asked for. *)
Inductive Call : Type :=
| Initialize (vertexOk fragmentOk linkOk : bool) (info : string)
| StartAnimation
| StopAnimation
| ResetAnimation
| SetAnimationSpeed (speed : num)
| SetShowIntermediateFrames (show : bool)
| SetConeParams (params : PartialConeParams)
| SetStartAxis (v : Vec3)
| SetEndAxis (v : Vec3)
| SetLoopAnimation (loop : bool)
| Frame.

Definition call (c : Call) : M unit :=
  match c with
  | Initialize vertexOk fragmentOk linkOk info =>
      initialize vertexOk fragmentOk linkOk info
  | StartAnimation => startAnimation
  | StopAnimation => stopAnimation
  | ResetAnimation => resetAnimation
  | SetAnimationSpeed speed => setAnimationSpeed speed
  | SetShowIntermediateFrames show => setShowIntermediateFrames show
  | SetConeParams params => setConeParams params
  | SetStartAxis v => setStartAxis v
  | SetEndAxis v => setEndAxis v
  | SetLoopAnimation loop => setLoopAnimation loop
  | Frame => render
  end.

(** The object after the calls [cs], one after the other; a call that
    throws ends there, and the object lives on. *)
Fixpoint run (cs : list Call) (this : ConeAnimation) : ConeAnimation :=
  match cs with
  | [] => this
  | c :: cs' => run cs' (after (call c this))
  end.

(** [n] frames in a row. *)
Definition frames (n : nat) : ConeAnimation -> ConeAnimation :=
  run (repeat Frame n).

(** ** Notions used by the statements *)

(** The table of samples: the rotation at [i/20] for [i] from 0 to 20. *)
Definition sampleTable (a b : Quat) : list Quat :=
  map (fun i => quat.slerp a b (Num.of_nat i / Num.of_nat 20)%num)
      (seq 0 21).

(** The object's table is the table of its two quaternions. *)
Definition table_fresh (this : ConeAnimation) : Prop :=
  intermediateFrames this =
  sampleTable (quat (startOrientation this)) (quat (endOrientation this)).

(** Each quaternion is the rotation from up to its axis. *)
Definition quats_derived (this : ConeAnimation) : Prop :=
  let up := vec3.fromValues (Fin 0) (Fin 1) (Fin 0) in
  quat (startOrientation this) =
    quat.rotationTo up (axis (startOrientation this)) /\
  quat (endOrientation this) =
    quat.rotationTo up (axis (endOrientation this)).

(** The animation clock: the four fields that [advance] reads or writes. *)
Record Clock : Type := mkClock {
  progress : num;
  playing : bool;
  speed : num;
  looping : bool
}.

Definition clock_of (this : ConeAnimation) : Clock :=
  mkClock (animationProgress this) (isAnimating this)
          (animationSpeed this) (loopAnimation this).

(** [advance] seen on the clock alone. *)
Definition tick (c : Clock) : Clock :=
  if playing c then
    let p := (progress c + speed c)%num in
    if (p >=? Fin 1)%num then
      if looping c then mkClock (Fin 0) true (speed c) (looping c)
      else mkClock (Fin 1) false (speed c) (looping c)
    else mkClock p true (speed c) (looping c)
  else c.

(** The progress after [j] steps of size [s] from 0, each step added to
    the sum of the steps before it, as [advance] adds them. *)
Definition accumulated (j : nat) (s : num) : num :=
  Nat.iter j (fun p => (p + s)%num) (Fin 0).

(** A call seen on the clock alone. *)
Definition clock_call (c : Call) (k : Clock) : Clock :=
  match c with
  | Initialize vertexOk fragmentOk linkOk _ =>
      if vertexOk && fragmentOk && linkOk then tick k else k
  | StartAnimation => mkClock (Fin 0) true (speed k) (looping k)
  | StopAnimation => mkClock (progress k) false (speed k) (looping k)
  | ResetAnimation => mkClock (Fin 0) false (speed k) (looping k)
  | SetAnimationSpeed v => mkClock (progress k) (playing k) v (looping k)
  | SetLoopAnimation b => mkClock (progress k) (playing k) (speed k) b
  | Frame => tick k
  | _ => k
  end.

(** The translucency of entry [i] of a trail of [n] cones (line 399). *)
Definition trailAlpha (i n : nat) : num :=
  (Fin 0.15 + Num.of_nat i / Num.of_nat n * Fin 0.3)%num.

(** The line draws of a frame: the three axes, then the two directions. *)
Definition lineDraws : list DrawCall :=
  [DrawLine AxisLines (Fin 1) (Fin 0) (Fin 0) 0;
   DrawLine AxisLines (Fin 0) (Fin 1) (Fin 0) 2;
   DrawLine AxisLines (Fin 0) (Fin 0) (Fin 1) 4;
   DrawLine DirectionLines (Fin 1) (Fin 1) (Fin 0) 0;
   DrawLine DirectionLines (Fin 1) (Fin 0.5) (Fin 0) 2].

(** One cone per entry of the table, entry [i] with [trailAlpha i n]. *)
Definition trailDraws (this : ConeAnimation) : list DrawCall :=
  let table := intermediateFrames this in
  map (fun '(i, q) =>
         DrawCone q (trailAlpha i (length table)) (coneVertexCount this))
      (combine (seq 0 (length table)) table).

(** The cone at the live progress, opaque. *)
Definition liveDraw (this : ConeAnimation) : DrawCall :=
  DrawCone (quat.slerp (quat (startOrientation this))
                       (quat (endOrientation this))
                       (animationProgress this))
           (Fin 1) (coneVertexCount this).

(** From index [k] on, the object's table is [table]. *)
Definition nth_error_suffix (k : nat) (table : list Quat)
           (this : ConeAnimation) : Prop :=
  forall j, nth_error (intermediateFrames this) (k + j) = nth_error table j.

(** The cone draws of a frame: the trail when the trail is shown and
    nothing is playing, the one live cone otherwise. *)
Definition coneDraws (this : ConeAnimation) : list DrawCall :=
  if showIntermediateFrames this && negb (isAnimating this)
  then trailDraws this
  else [liveDraw this].

(** What a frame draws; nothing before there is a program. *)
Definition frameDraws (this : ConeAnimation) : list DrawCall :=
  if program this then lineDraws ++ coneDraws this else [].

(** Three vectors: the one of length 0, up, and down. *)
Definition zeroVec : Vec3 := mkVec3 (Fin 0) (Fin 0) (Fin 0).
Definition upVec : Vec3 := mkVec3 (Fin 0) (Fin 1) (Fin 0).
Definition downVec : Vec3 := mkVec3 (Fin 0) (Fin (-1)) (Fin 0).

(** An order on numbers: both are real and the first is below the second. *)
Definition num_lt (a b : num) : Prop :=
  match a, b with
  | Fin x, Fin y => x < y
  | _, _ => False
  end.

(** The four components of a quaternion are real numbers: none is NaN. *)
Definition quat_real (q : Quat) : Prop :=
  Num.is_real (qx q) /\ Num.is_real (qy q) /\
  Num.is_real (qz q) /\ Num.is_real (qw q).

(** A unit quaternion: real components whose squares sum to 1. *)
Definition quat_unit (q : Quat) : Prop :=
  match qx q, qy q, qz q, qw q with
  | Fin x, Fin y, Fin z, Fin w => x * x + y * y + z * z + w * w = 1
  | _, _, _, _ => False
  end.

(** ** Notions used by the further properties *)

(** A call of [initialize] whose two shaders compile and whose program
    links. *)
Definition loads (c : Call) : bool :=
  match c with
  | Initialize vertexOk fragmentOk linkOk _ => vertexOk && fragmentOk && linkOk
  | _ => false
  end.

(** The message of the error that [initialize] throws. *)
Definition initializeError (vertexOk fragmentOk : bool) (info : string)
  : string :=
  if vertexOk && fragmentOk
  then ("Program linking error: " ++ info)%string
  else ("Shader compilation error: " ++ info)%string.

(** A speed that is a real number and not negative. *)
Definition speed_ok (c : Call) : Prop :=
  match c with
  | SetAnimationSpeed v => exists s, v = Fin s /\ 0 <= s
  | _ => True
  end.

(** A real number between 0 and 1. *)
Definition in_unit_interval (a : num) : Prop :=
  match a with
  | Fin p => 0 <= p <= 1
  | NaN => False
  end.

(** The array of the axis gizmo (lines 183-187): three segments of length
    3 from the origin. *)
Definition axisVertices : list num :=
  [Fin 0; Fin 0; Fin 0; Fin 3; Fin 0; Fin 0;
   Fin 0; Fin 0; Fin 0; Fin 0; Fin 3; Fin 0;
   Fin 0; Fin 0; Fin 0; Fin 0; Fin 0; Fin 3].

(** The array of the two direction vectors (lines 195-205): from the
    origin to each axis scaled by [l], which is one and a half times the
    height. *)
Definition directionSegments (l : num) (this : ConeAnimation) : list num :=
  let s := vec3.scale (axis (startOrientation this)) l in
  let e := vec3.scale (axis (endOrientation this)) l in
  [Fin 0; Fin 0; Fin 0; v0 s; v1 s; v2 s;
   Fin 0; Fin 0; Fin 0; v0 e; v1 e; v2 e].

Definition directionVertices (this : ConeAnimation) : list num :=
  directionSegments (height (coneParams this) * Fin 1.5)%num this.

(** The direction buffer, once there is one, holds two segments from the
    origin along the current axes, both scaled by the same number. *)
Definition directions_along_axes (this : ConeAnimation) : Prop :=
  match directionVectorBuffer this with
  | None => True
  | Some vertices => exists l, vertices = directionSegments l this
  end.

(** The object with the cone arrays of its parameters uploaded. *)
Definition withCone (this : ConeAnimation) : ConeAnimation :=
  let arrays := coneArrays (coneParams this) in
  set_coneIndexBuffer (Some (Uint16Array (snd arrays)))
    (set_coneNormalBuffer (Some (snd (fst arrays)))
       (set_coneBuffer (Some (fst (fst arrays)))
          (set_coneVertexCount (Z.of_nat (length (snd arrays))) this))).

(** The angle of ring vertex [i] (line 141), its position (lines 142-145)
    and its normal (lines 137-138 and 147-151). *)
Definition ringTheta (p : ConeParams) (i : Z) : num :=
  (Num.of_Z i / Num.of_Z (segments p) * Num.PI * Fin 2)%num.

Definition ringVertex (p : ConeParams) (i : Z) : list num :=
  [(radius p * Num.cos (ringTheta p i))%num;
   (- height p / Fin 2)%num;
   (radius p * Num.sin (ringTheta p i))%num].

Definition ringNormal (p : ConeParams) (i : Z) : list num :=
  let sideNormalY :=
    (radius p / Num.sqrt (radius p * radius p + height p * height p))%num in
  let sideNormalXZ :=
    (height p / Num.sqrt (radius p * radius p + height p * height p))%num in
  [(sideNormalXZ * Num.cos (ringTheta p i))%num;
   sideNormalY;
   (sideNormalXZ * Num.sin (ringTheta p i))%num].

(** The triangle of the side between ring vertices [i] and [i + 1]
    (line 155), and that of the base, wound the other way (line 163). *)
Definition sideTriangle (i : Z) : list Z := [0; i + 1; i + 2]%Z.

Definition baseTriangle (baseCenter i : Z) : list Z :=
  [baseCenter; i + 1; i]%Z.

(** Vertex [k] of an array of coordinates: its three numbers. *)
Definition vertexAt (coordinates : list num) (k : nat) : list num :=
  firstn 3 (skipn (3 * k) coordinates).

(** The cone buffers hold the arrays of the current parameters, or the
    cone has never been generated. *)
Definition mesh_current (this : ConeAnimation) : Prop :=
  (coneBuffer this = None /\ coneNormalBuffer this = None /\
   coneIndexBuffer this = None /\ coneVertexCount this = 0%Z) \/
  (let arrays := coneArrays (coneParams this) in
   coneBuffer this = Some (fst (fst arrays)) /\
   coneNormalBuffer this = Some (snd (fst arrays)) /\
   coneIndexBuffer this = Some (Uint16Array (snd arrays)) /\
   coneVertexCount this = Z.of_nat (length (snd arrays))).

(** A vector of real components. *)
Definition vec3_real (v : Vec3) : Prop :=
  exists a b c, v = mkVec3 (Fin a) (Fin b) (Fin c).

(** A vector of real components that has length 1 or is (0,0,0). *)
Definition vec3_unit_or_zero (v : Vec3) : Prop :=
  exists a b c,
    v = mkVec3 (Fin a) (Fin b) (Fin c) /\
    (a * a + b * b + c * c = 1 \/ (a = 0 /\ b = 0 /\ c = 0)).

(** A call that passes a vector passes one of real components. *)
Definition axis_ok (c : Call) : Prop :=
  match c with
  | SetStartAxis v => vec3_real v
  | SetEndAxis v => vec3_real v
  | _ => True
  end.

(** The opposite quaternion, which is the same rotation. *)
Definition quat_neg (q : Quat) : Quat :=
  mkQuat (- qx q)%num (- qy q)%num (- qz q)%num (- qw q)%num.

(** [mat4] of gl-matrix, as far as [drawCone] builds its model matrix
    (lines 215-218).  A matrix is its 16 numbers in column-major order:
    [e4] to [e7] are the second column, the image of the y axis. *)
Record Mat4 : Type := mkMat4 {
  e0 : num; e1 : num; e2 : num; e3 : num;
  e4 : num; e5 : num; e6 : num; e7 : num;
  e8 : num; e9 : num; e10 : num; e11 : num;
  e12 : num; e13 : num; e14 : num; e15 : num
}.

Module mat4.

(** [create]: the identity matrix. *)
Definition create : Mat4 :=
  mkMat4 (Fin 1) (Fin 0) (Fin 0) (Fin 0)
         (Fin 0) (Fin 1) (Fin 0) (Fin 0)
         (Fin 0) (Fin 0) (Fin 1) (Fin 0)
         (Fin 0) (Fin 0) (Fin 0) (Fin 1).

(** [fromQuat q]: the rotation matrix of a quaternion. *)
Definition fromQuat (q : Quat) : Mat4 :=
  let x := qx q in let y := qy q in let z := qz q in let w := qw q in
  let x2 := (x + x)%num in
  let y2 := (y + y)%num in
  let z2 := (z + z)%num in
  let xx := (x * x2)%num in
  let yx := (y * x2)%num in
  let yy := (y * y2)%num in
  let zx := (z * x2)%num in
  let zy := (z * y2)%num in
  let zz := (z * z2)%num in
  let wx := (w * x2)%num in
  let wy := (w * y2)%num in
  let wz := (w * z2)%num in
  mkMat4 (Fin 1 - yy - zz) (yx + wz) (zx - wy) (Fin 0)
         (yx - wz) (Fin 1 - xx - zz) (zy + wx) (Fin 0)
         (zx + wy) (zy - wx) (Fin 1 - xx - yy) (Fin 0)
         (Fin 0) (Fin 0) (Fin 0) (Fin 1).

(** [multiply a b]: the product of [a] and [b]. *)
Definition multiply (a b : Mat4) : Mat4 :=
  let row (b0 b1 b2 b3 : num) (j0 j1 j2 j3 : num) :=
    (b0 * j0 + b1 * j1 + b2 * j2 + b3 * j3)%num in
  mkMat4
    (row (e0 b) (e1 b) (e2 b) (e3 b) (e0 a) (e4 a) (e8 a) (e12 a))
    (row (e0 b) (e1 b) (e2 b) (e3 b) (e1 a) (e5 a) (e9 a) (e13 a))
    (row (e0 b) (e1 b) (e2 b) (e3 b) (e2 a) (e6 a) (e10 a) (e14 a))
    (row (e0 b) (e1 b) (e2 b) (e3 b) (e3 a) (e7 a) (e11 a) (e15 a))
    (row (e4 b) (e5 b) (e6 b) (e7 b) (e0 a) (e4 a) (e8 a) (e12 a))
    (row (e4 b) (e5 b) (e6 b) (e7 b) (e1 a) (e5 a) (e9 a) (e13 a))
    (row (e4 b) (e5 b) (e6 b) (e7 b) (e2 a) (e6 a) (e10 a) (e14 a))
    (row (e4 b) (e5 b) (e6 b) (e7 b) (e3 a) (e7 a) (e11 a) (e15 a))
    (row (e8 b) (e9 b) (e10 b) (e11 b) (e0 a) (e4 a) (e8 a) (e12 a))
    (row (e8 b) (e9 b) (e10 b) (e11 b) (e1 a) (e5 a) (e9 a) (e13 a))
    (row (e8 b) (e9 b) (e10 b) (e11 b) (e2 a) (e6 a) (e10 a) (e14 a))
    (row (e8 b) (e9 b) (e10 b) (e11 b) (e3 a) (e7 a) (e11 a) (e15 a))
    (row (e12 b) (e13 b) (e14 b) (e15 b) (e0 a) (e4 a) (e8 a) (e12 a))
    (row (e12 b) (e13 b) (e14 b) (e15 b) (e1 a) (e5 a) (e9 a) (e13 a))
    (row (e12 b) (e13 b) (e14 b) (e15 b) (e2 a) (e6 a) (e10 a) (e14 a))
    (row (e12 b) (e13 b) (e14 b) (e15 b) (e3 a) (e7 a) (e11 a) (e15 a)).

End mat4.

(** Lines 215-218 of [drawCone]: the model matrix of a quaternion. *)
Definition modelMatrix (quaternion : Quat) : Mat4 :=
  let modelMatrix := mat4.create in
  let rotationMatrix := mat4.fromQuat quaternion in
  mat4.multiply modelMatrix rotationMatrix.

(** A draw call of a frame that shows the trail: a line, or a cone whose
    alpha is a real number from 0.15 up to, but not reaching, 0.45. *)
Definition trail_call (d : DrawCall) : Prop :=
  match d with
  | DrawLine _ _ _ _ _ => True
  | DrawCone _ alpha _ => exists x, alpha = Fin x /\ 0.15 <= x < 0.45
  end.

(** A draw call of a frame that shows one cone: a line, or an opaque
    cone. *)
Definition opaque_call (d : DrawCall) : Prop :=
  match d with
  | DrawLine _ _ _ _ _ => True
  | DrawCone _ alpha _ => alpha = Fin 1
  end.

(** ** Numbers *)

Arguments Num.add : simpl never.
Arguments Num.sub : simpl never.
Arguments Num.mul : simpl never.
Arguments Num.div : simpl never.
Arguments Num.neg : simpl never.
Arguments Num.ltb : simpl never.
Arguments Num.leb : simpl never.
Arguments Num.gtb : simpl never.
Arguments Num.geb : simpl never.
Arguments Num.sqrt : simpl never.
Arguments Num.sin : simpl never.
Arguments Num.cos : simpl never.
Arguments Num.acos : simpl never.
Arguments Num.of_nat : simpl never.
Arguments Num.of_Z : simpl never.
Arguments quat.slerp : simpl never.
Arguments quat.rotationTo : simpl never.
Arguments vec3.normalize : simpl never.
Arguments vec3.scale : simpl never.
Arguments coneArrays : simpl never.
Arguments sampleTable : simpl never.

Lemma geb_Fin_true (x y : R) : y <= x -> (Fin x >=? Fin y)%num = true.
Proof.
  intros H. unfold Num.geb, Num.leb.
  destruct (Rle_dec y x) as [_ | n]; [reflexivity | contradiction].
Qed.

Lemma geb_Fin_false (x y : R) : x < y -> (Fin x >=? Fin y)%num = false.
Proof.
  intros H. unfold Num.geb, Num.leb.
  destruct (Rle_dec y x) as [l | _]; [lra | reflexivity].
Qed.

Lemma ltb_Fin_true (x y : R) : x < y -> (Fin x <? Fin y)%num = true.
Proof.
  intros H. unfold Num.ltb.
  destruct (Rlt_dec x y) as [_ | n]; [reflexivity | contradiction].
Qed.

Lemma ltb_Fin_false (x y : R) : y <= x -> (Fin x <? Fin y)%num = false.
Proof.
  intros H. unfold Num.ltb.
  destruct (Rlt_dec x y) as [l | _]; [lra | reflexivity].
Qed.

Lemma gtb_Fin_true (x y : R) : y < x -> (Fin x >? Fin y)%num = true.
Proof. intros H. unfold Num.gtb. now apply ltb_Fin_true. Qed.

Lemma gtb_Fin_false (x y : R) : x <= y -> (Fin x >? Fin y)%num = false.
Proof. intros H. unfold Num.gtb. now apply ltb_Fin_false. Qed.

Lemma div_Fin (x y : R) : y <> 0 -> (Fin x / Fin y)%num = Fin (x / y).
Proof.
  intros H. unfold Num.div.
  destruct (Req_dec_T y 0) as [e | _]; [contradiction | reflexivity].
Qed.

Lemma sqrt_Fin (x : R) : 0 <= x -> Num.sqrt (Fin x) = Fin (sqrt x).
Proof.
  intros H. unfold Num.sqrt.
  destruct (Rlt_dec x 0) as [l | _]; [lra | reflexivity].
Qed.

Lemma acos_Fin (x : R) : -1 <= x <= 1 -> Num.acos (Fin x) = Fin (acos x).
Proof.
  intros [H1 H2]. unfold Num.acos.
  destruct (Rlt_dec x (-1)) as [l | _]; [lra |].
  destruct (Rlt_dec 1 x) as [l | _]; [lra | reflexivity].
Qed.

Lemma Fin_eq (x y : R) : x = y -> Fin x = Fin y.
Proof. intros ->. reflexivity. Qed.

(** ** The methods as state transformers *)

Lemma generateIntermediateFrames_eq this :
  generateIntermediateFrames this =
  Returned tt
    (set_intermediateFrames
       (sampleTable (quat (startOrientation this))
                    (quat (endOrientation this))) this).
Proof. reflexivity. Qed.

Lemma updateOrientationQuaternions_eq this :
  let up := vec3.fromValues (Fin 0) (Fin 1) (Fin 0) in
  let qs := quat.rotationTo up (axis (startOrientation this)) in
  let qe := quat.rotationTo up (axis (endOrientation this)) in
  updateOrientationQuaternions this =
  Returned tt
    (set_intermediateFrames (sampleTable qs qe)
       (set_endOrientation (mkOrientation (axis (endOrientation this)) qe)
          (set_startOrientation
             (mkOrientation (axis (startOrientation this)) qs) this))).
Proof. reflexivity. Qed.

Lemma for_each_cons {A : Type} (i : A) (l : list A) (body : A -> M unit)
      (this : ConeAnimation) :
  for_each (i :: l) body this =
  match body i this with
  | Returned _ this' => for_each l body this'
  | Thrown message this' => Thrown message this'
  end.
Proof. reflexivity. Qed.

Lemma drawCone_eq q alpha this :
  drawCone q alpha this =
  Returned tt
    (if program this
     then set_canvas
            (canvas this ++ [DrawCone q alpha (coneVertexCount this)]) this
     else this).
Proof.
  unfold drawCone, bind, read. now destruct (program this).
Qed.

Lemma drawTrailCone_eq (i : nat) (q : Quat) this :
  nth_error (intermediateFrames this) i = Some q ->
  drawTrailCone i this =
  Returned tt
    (if program this
     then set_canvas
            (canvas this ++
             [DrawCone q (trailAlpha i (length (intermediateFrames this)))
                       (coneVertexCount this)]) this
     else this).
Proof.
  intros Hq. unfold drawTrailCone, bind at 1, read at 1.
  rewrite Hq. now apply drawCone_eq.
Qed.

(** The trail loop over the entries from [k] on. *)
Lemma trail_loop (table : list Quat) : forall (k : nat) this,
  nth_error_suffix k table this ->
  for_each (seq k (length table)) drawTrailCone this =
  Returned tt
    (if program this
     then set_canvas
            (canvas this ++
             map (fun '(i, q) =>
                    DrawCone q
                      (trailAlpha i (length (intermediateFrames this)))
                      (coneVertexCount this))
                 (combine (seq k (length table)) table)) this
     else this).
Proof.
  induction table as [| q table IH]; intros k this Hsuf.
  - destruct this as [cv pr b1 b2 b3 b4 b5 cp n so eo p a s sh t lo]; simpl.
    unfold ret, set_canvas; simpl.
    rewrite app_nil_r. now destruct pr.
  - simpl length. simpl seq. rewrite for_each_cons.
    rewrite (drawTrailCone_eq k q this)
      by (specialize (Hsuf 0%nat); now rewrite Nat.add_0_r in Hsuf).
    rewrite IH.
    + destruct this as [cv pr b1 b2 b3 b4 b5 cp n so eo p a s sh t lo].
      destruct pr; simpl; [| reflexivity].
      unfold set_canvas; simpl. now rewrite <- app_assoc.
    + intros j. specialize (Hsuf (S j)).
      rewrite <- Nat.add_succ_comm in Hsuf.
      destruct this as [cv pr b1 b2 b3 b4 b5 cp n so eo p a s sh t lo].
      destruct pr; exact Hsuf.
Qed.

Lemma advance_eq this :
  advance this =
  Returned tt
    (set_isAnimating (playing (tick (clock_of this)))
       (set_animationProgress (progress (tick (clock_of this))) this)).
Proof.
  destruct this as [cv pr b1 b2 b3 b4 b5 cp n so eo p a s sh t lo].
  unfold advance, tick, clock_of, bind, read, assign, ret; simpl.
  destruct a; simpl; [| reflexivity].
  destruct (p + s >=? Fin 1)%num; simpl; [| reflexivity].
  destruct lo; reflexivity.
Qed.

Lemma drawCones_eq this :
  drawCones this =
  Returned tt
    (if program this
     then set_canvas (canvas this ++ coneDraws this) this
     else this).
Proof.
  unfold drawCones, coneDraws, bind at 1 2, read at 1 2.
  destruct (showIntermediateFrames this && negb (isAnimating this)).
  - unfold bind, read at 1.
    now rewrite (trail_loop (intermediateFrames this) 0 this)
      by (intros j; reflexivity).
  - unfold bind, read. now rewrite drawCone_eq.
Qed.

Lemma drawAxes_eq this :
  drawAxes this =
  Returned tt
    (if program this
     then set_canvas
            (canvas this ++
             [DrawLine AxisLines (Fin 1) (Fin 0) (Fin 0) 0;
              DrawLine AxisLines (Fin 0) (Fin 1) (Fin 0) 2;
              DrawLine AxisLines (Fin 0) (Fin 0) (Fin 1) 4]) this
     else this).
Proof.
  destruct this as [cv pr b1 b2 b3 b4 b5 cp n so eo p a s sh t lo].
  unfold drawAxes, draw, bind, read, assign, ret, set_canvas; simpl.
  destruct pr; simpl; [| reflexivity].
  now rewrite <- !app_assoc.
Qed.

Lemma drawDirectionVectors_eq this :
  drawDirectionVectors this =
  Returned tt
    (if program this
     then set_canvas
            (canvas this ++
             [DrawLine DirectionLines (Fin 1) (Fin 1) (Fin 0) 0;
              DrawLine DirectionLines (Fin 1) (Fin 0.5) (Fin 0) 2]) this
     else this).
Proof.
  destruct this as [cv pr b1 b2 b3 b4 b5 cp n so eo p a s sh t lo].
  unfold drawDirectionVectors, draw, bind, read, assign, ret, set_canvas.
  simpl. destruct pr; simpl; [| reflexivity].
  now rewrite <- !app_assoc.
Qed.

Lemma render_eq this :
  render this =
  Returned tt
    (set_isAnimating (playing (tick (clock_of this)))
       (set_animationProgress (progress (tick (clock_of this)))
          (set_canvas (frameDraws this) this))).
Proof.
  unfold render, frameDraws.
  unfold bind at 1, assign at 1.
  unfold bind at 1. rewrite drawAxes_eq.
  unfold bind at 1. rewrite drawDirectionVectors_eq.
  unfold bind at 1. rewrite drawCones_eq.
  rewrite advance_eq.
  destruct this as [cv pr b1 b2 b3 b4 b5 cp n so eo p a s sh t lo].
  destruct pr; reflexivity.
Qed.

Lemma generateCone_eq this :
  let arrays := coneArrays (coneParams this) in
  generateCone this =
  Returned tt
    (set_coneIndexBuffer (Some (Uint16Array (snd arrays)))
       (set_coneNormalBuffer (Some (snd (fst arrays)))
          (set_coneBuffer (Some (fst (fst arrays)))
             (set_coneVertexCount (Z.of_nat (length (snd arrays))) this)))).
Proof.
  unfold generateCone, bind at 1, read at 1.
  destruct (coneArrays (coneParams this)) as [[vertices normals] indices].
  reflexivity.
Qed.

Lemma setConeParams_eq params this :
  let p := spread (coneParams this) params in
  let arrays := coneArrays p in
  setConeParams params this =
  Returned tt
    (set_coneIndexBuffer (Some (Uint16Array (snd arrays)))
       (set_coneNormalBuffer (Some (snd (fst arrays)))
          (set_coneBuffer (Some (fst (fst arrays)))
             (set_coneVertexCount (Z.of_nat (length (snd arrays)))
                (set_coneParams p this))))).
Proof.
  unfold setConeParams, bind at 1 2, read at 1, assign at 1.
  rewrite generateCone_eq.
  destruct this; reflexivity.
Qed.

(** The array that [generateDirectionVectors] uploads. *)
Lemma generateDirectionVectors_eq this :
  exists vertices,
    generateDirectionVectors this =
    Returned tt (set_directionVectorBuffer (Some vertices) this).
Proof.
  unfold generateDirectionVectors, bind, read, assign.
  eexists. reflexivity.
Qed.

Lemma setStartAxis_eq v this :
  let up := vec3.fromValues (Fin 0) (Fin 1) (Fin 0) in
  let qs := quat.rotationTo up (vec3.normalize v) in
  let qe := quat.rotationTo up (axis (endOrientation this)) in
  exists vertices,
    setStartAxis v this =
    Returned tt
      (set_directionVectorBuffer (Some vertices)
         (set_intermediateFrames (sampleTable qs qe)
            (set_endOrientation
               (mkOrientation (axis (endOrientation this)) qe)
               (set_startOrientation
                  (mkOrientation (vec3.normalize v) qs) this)))).
Proof.
  intros up qs qe.
  unfold setStartAxis, bind at 1 2 3, read at 1, assign at 1.
  rewrite updateOrientationQuaternions_eq.
  match goal with
  | |- context [generateDirectionVectors ?s] =>
      destruct (generateDirectionVectors_eq s) as [vertices ->]
  end.
  exists vertices. destruct this; reflexivity.
Qed.

Lemma setEndAxis_eq v this :
  let up := vec3.fromValues (Fin 0) (Fin 1) (Fin 0) in
  let qs := quat.rotationTo up (axis (startOrientation this)) in
  let qe := quat.rotationTo up (vec3.normalize v) in
  exists vertices,
    setEndAxis v this =
    Returned tt
      (set_directionVectorBuffer (Some vertices)
         (set_intermediateFrames (sampleTable qs qe)
            (set_endOrientation (mkOrientation (vec3.normalize v) qe)
               (set_startOrientation
                  (mkOrientation (axis (startOrientation this)) qs)
                  this)))).
Proof.
  intros up qs qe.
  unfold setEndAxis, bind at 1 2 3, read at 1, assign at 1.
  rewrite updateOrientationQuaternions_eq.
  match goal with
  | |- context [generateDirectionVectors ?s] =>
      destruct (generateDirectionVectors_eq s) as [vertices ->]
  end.
  exists vertices. destruct this; reflexivity.
Qed.

(** [initialize] either throws before it has assigned anything, or loads
    the program and the three buffers and renders the first frame. *)
Lemma initialize_eq vertexOk fragmentOk linkOk info this :
  (exists message,
      vertexOk && fragmentOk && linkOk = false /\
      initialize vertexOk fragmentOk linkOk info this = Thrown message this)
  \/
  (exists axes directions,
      vertexOk && fragmentOk && linkOk = true /\
      let arrays := coneArrays (coneParams this) in
      initialize vertexOk fragmentOk linkOk info this =
      render
        (set_directionVectorBuffer (Some directions)
           (set_axisBuffer (Some axes)
              (set_coneIndexBuffer (Some (Uint16Array (snd arrays)))
                 (set_coneNormalBuffer (Some (snd (fst arrays)))
                    (set_coneBuffer (Some (fst (fst arrays)))
                       (set_coneVertexCount
                          (Z.of_nat (length (snd arrays)))
                          (set_program true this)))))))).
Proof.
  destruct vertexOk; [| left; eexists; split; reflexivity].
  destruct fragmentOk; [| left; eexists; split; reflexivity].
  destruct linkOk; [| left; eexists; split; reflexivity].
  right. do 2 eexists. split; [reflexivity |].
  unfold initialize, createShader, createProgram; simpl negb; cbv iota.
  unfold bind at 1, ret at 1. unfold bind at 1, ret at 1.
  unfold bind at 1, ret at 1. unfold bind at 1, assign at 1.
  unfold bind at 1. rewrite generateCone_eq.
  unfold bind at 1, generateAxisLines at 1, assign at 1.
  unfold bind at 1, generateDirectionVectors, bind at 1, read at 1.
  unfold bind at 1, read at 1. unfold bind at 1, read at 1.
  unfold assign at 1.
  destruct this; reflexivity.
Qed.

(** ** Every call returns or throws with the object intact *)

Arguments tick : simpl never.

Lemma clock_after_tick (c : Clock) :
  mkClock (progress (tick c)) (playing (tick c)) (speed c) (looping c) =
  tick c.
Proof.
  unfold tick. destruct c as [p a s l]; simpl.
  destruct a; [| reflexivity].
  destruct (p + s >=? Fin 1)%num; [| reflexivity].
  now destruct l.
Qed.

(** The clock after a frame. *)
Lemma clock_render this :
  clock_of (after (render this)) = tick (clock_of this).
Proof.
  rewrite render_eq. rewrite <- clock_after_tick.
  now destruct this.
Qed.

(** The clock after a call, from the clock before it. *)
Lemma call_clock (c : Call) this :
  clock_of (after (call c this)) = clock_call c (clock_of this).
Proof.
  destruct c as [vertexOk fragmentOk linkOk info | | | | speed | show
                 | params | v | v | loop |]; simpl call.
  - destruct (initialize_eq vertexOk fragmentOk linkOk info this)
      as [[message [Hf ->]] | [axes [directions [Ht ->]]]];
      simpl clock_call; rewrite ?Hf, ?Ht; [reflexivity |].
    rewrite clock_render. now destruct this.
  - now destruct this.
  - now destruct this.
  - now destruct this.
  - now destruct this.
  - now destruct this.
  - rewrite setConeParams_eq. now destruct this.
  - destruct (setStartAxis_eq v this) as [vertices ->]. now destruct this.
  - destruct (setEndAxis_eq v this) as [vertices ->]. now destruct this.
  - now destruct this.
  - apply clock_render.
Qed.

(** The quaternions stay derived from the axes, and the table fresh. *)
Lemma call_orientation (c : Call) this :
  quats_derived this -> table_fresh this ->
  quats_derived (after (call c this)) /\ table_fresh (after (call c this)).
Proof.
  intros Hq Ht.
  destruct c as [vertexOk fragmentOk linkOk info | | | | speed | show
                 | params | v | v | loop |]; simpl call.
  - destruct (initialize_eq vertexOk fragmentOk linkOk info this)
      as [[message [Hf ->]] | [axes [directions [Hok ->]]]];
      [now split |].
    rewrite render_eq. destruct this; split; assumption.
  - destruct this; split; assumption.
  - destruct this; split; assumption.
  - destruct this; split; assumption.
  - destruct this; split; assumption.
  - destruct this; split; assumption.
  - rewrite setConeParams_eq. destruct this; split; assumption.
  - destruct (setStartAxis_eq v this) as [vertices ->].
    destruct Hq as [_ He]. destruct this; simpl in *.
    split; [split |]; reflexivity.
  - destruct (setEndAxis_eq v this) as [vertices ->].
    destruct Hq as [Hs _]. destruct this; simpl in *.
    split; [split |]; reflexivity.
  - destruct this; split; assumption.
  - rewrite render_eq. destruct this; split; assumption.
Qed.

Lemma new_eq :
  let up := vec3.fromValues (Fin 0) (Fin 1) (Fin 0) in
  let s := vec3.fromValues (Fin 0) (Fin 1) (Fin 0) in
  let e := vec3.fromValues (Fin 1) (Fin 0) (Fin 0) in
  let qs := quat.rotationTo up s in
  let qe := quat.rotationTo up e in
  new true =
  Returned tt
    (set_intermediateFrames (sampleTable qs qe)
       (set_endOrientation (mkOrientation e qe)
          (set_startOrientation (mkOrientation s qs) fieldInitialisers))).
Proof. reflexivity. Qed.

Lemma run_orientation (cs : list Call) : forall this,
  quats_derived this -> table_fresh this ->
  quats_derived (run cs this) /\ table_fresh (run cs this).
Proof.
  induction cs as [| c cs IH]; intros this Hq Ht; [now split |].
  simpl. destruct (call_orientation c this Hq Ht) as [Hq' Ht'].
  now apply IH.
Qed.

Lemma run_clock (cs : list Call) : forall this,
  clock_of (run cs this) = fold_left (fun k c => clock_call c k) cs
                                     (clock_of this).
Proof.
  induction cs as [| c cs IH]; intros this; [reflexivity |].
  simpl. now rewrite IH, call_clock.
Qed.

Lemma run_nil this : run [] this = this.
Proof. reflexivity. Qed.

Lemma run_cons (c : Call) (cs : list Call) this :
  run (c :: cs) this = run cs (after (call c this)).
Proof. reflexivity. Qed.

Lemma run_app (cs1 cs2 : list Call) this :
  run (cs1 ++ cs2) this = run cs2 (run cs1 this).
Proof.
  revert this. induction cs1 as [| c cs1 IH]; intros this; [reflexivity |].
  simpl. apply IH.
Qed.

(** ** The table of intermediate frames *)

Lemma INR_20 : INR 20 = 20.
Proof. simpl. lra. Qed.

Lemma sampleTable_length (a b : Quat) : length (sampleTable a b) = 21%nat.
Proof. reflexivity. Qed.

Lemma sampleTable_nth (a b : Quat) (i : nat) :
  (i <= 20)%nat ->
  nth_error (sampleTable a b) i = Some (quat.slerp a b (Fin (INR i / 20))).
Proof.
  intros Hi. unfold sampleTable.
  rewrite nth_error_map, nth_error_seq.
  assert (Hlt : (i <? 21)%nat = true) by (apply Nat.ltb_lt; lia).
  rewrite Hlt. simpl. unfold Num.of_nat.
  rewrite div_Fin by (rewrite INR_20; lra).
  now rewrite INR_20.
Qed.

(** C4: after construction and after every sequence of calls (those of
    [setStartAxis] and [setEndAxis] among them), both quaternions are the
    rotations from up to the current axes, and the table of intermediate
    frames has exactly 21 entries, entry [i] being the SLERP of the two
    current quaternions at [i/20]; entry 0 is the sample at 0 and entry 20
    the sample at 1. *)
Theorem C4_frame_table_fresh (cs : list Call) :
  exists this0,
    new true = Returned tt this0 /\
    let this := run cs this0 in
    let qs := quat (startOrientation this) in
    let qe := quat (endOrientation this) in
    quats_derived this /\
    length (intermediateFrames this) = 21%nat /\
    (forall i, (i <= 20)%nat ->
       nth_error (intermediateFrames this) i =
       Some (quat.slerp qs qe (Fin (INR i / 20)))) /\
    nth_error (intermediateFrames this) 0 = Some (quat.slerp qs qe (Fin 0)) /\
    nth_error (intermediateFrames this) 20 = Some (quat.slerp qs qe (Fin 1)).
Proof.
  eexists. split; [apply new_eq |].
  match goal with |- let this := run cs ?s in _ => set (this0 := s) end.
  assert (Hq0 : quats_derived this0) by (split; reflexivity).
  assert (Ht0 : table_fresh this0) by reflexivity.
  destruct (run_orientation cs this0 Hq0 Ht0) as [Hq Ht].
  intros this qs qe. fold this in Hq, Ht.
  unfold table_fresh in Ht. fold qs qe in Ht.
  split; [exact Hq |]. rewrite Ht.
  split; [apply sampleTable_length |].
  split; [intros i Hi; now apply sampleTable_nth |].
  split.
  - rewrite (sampleTable_nth qs qe 0) by lia.
    do 2 f_equal. apply Fin_eq. simpl. lra.
  - rewrite (sampleTable_nth qs qe 20) by lia.
    do 2 f_equal. apply Fin_eq. rewrite INR_20. lra.
Qed.

(** ** The animation clock *)

Lemma add_Fin (x y : R) : (Fin x + Fin y)%num = Fin (x + y).
Proof. reflexivity. Qed.

Lemma sub_Fin (x y : R) : (Fin x - Fin y)%num = Fin (x - y).
Proof. reflexivity. Qed.

Lemma mul_Fin (x y : R) : (Fin x * Fin y)%num = Fin (x * y).
Proof. reflexivity. Qed.

Lemma neg_Fin (x : R) : (- Fin x)%num = Fin (- x).
Proof. reflexivity. Qed.

Lemma tick_below (p s : R) (lo : bool) :
  p + s < 1 ->
  tick (mkClock (Fin p) true (Fin s) lo) = mkClock (Fin (p + s)) true (Fin s) lo.
Proof.
  intros H. unfold tick; simpl. rewrite add_Fin.
  now rewrite geb_Fin_false by lra.
Qed.

Lemma tick_loop (p s : R) :
  1 <= p + s ->
  tick (mkClock (Fin p) true (Fin s) true) = mkClock (Fin 0) true (Fin s) true.
Proof.
  intros H. unfold tick; simpl. rewrite add_Fin.
  now rewrite geb_Fin_true by lra.
Qed.

Lemma tick_stop (p s : R) :
  1 <= p + s ->
  tick (mkClock (Fin p) true (Fin s) false) =
  mkClock (Fin 1) false (Fin s) false.
Proof.
  intros H. unfold tick; simpl. rewrite add_Fin.
  now rewrite geb_Fin_true by lra.
Qed.

Lemma clock_of_new : clock_of (after (new true)) =
                     mkClock (Fin 0) false (Fin 0.01) true.
Proof. reflexivity. Qed.

Lemma frames_S (n : nat) this :
  frames (S n) this = frames n (after (render this)).
Proof. reflexivity. Qed.

Lemma frames_S_last (n : nat) this :
  frames (S n) this = after (render (frames n this)).
Proof.
  unfold frames. replace (S n) with (n + 1)%nat by lia.
  rewrite repeat_app, run_app. reflexivity.
Qed.

Lemma clock_frames (n : nat) this :
  clock_of (frames (S n) this) = tick (clock_of (frames n this)).
Proof. rewrite frames_S_last. apply clock_render. Qed.

Lemma startAnimation_effect this :
  exists this',
    startAnimation this = Returned tt this' /\
    isAnimating this' = true /\
    animationProgress this' = Fin 0.
Proof.
  eexists. split; [reflexivity |]. now destruct this.
Qed.

(** C3, as the code has it: [startAnimation] returns with the clock
    Playing and the progress set to 0, whatever the progress was and
    whichever call came before; speed and loop flag are kept. *)
Theorem C3_start_resets_progress this :
  exists this',
    startAnimation this = Returned tt this' /\
    isAnimating this' = true /\
    animationProgress this' = Fin 0 /\
    animationSpeed this' = animationSpeed this /\
    loopAnimation this' = loopAnimation this.
Proof.
  eexists. split; [reflexivity |]. now destruct this.
Qed.

(** C3 fails as stated: after construction, start, one frame and stop
    (no reset), the progress is 0.01; a call of [startAnimation] then
    leaves it at 0, not at 0.01. *)
Lemma C3_counterexample :
  let this := run [StartAnimation; Frame; StopAnimation] (after (new true)) in
  animationProgress this = Fin 0.01 /\
  isAnimating this = false /\
  exists this',
    startAnimation this = Returned tt this' /\
    isAnimating this' = true /\
    animationProgress this' = Fin 0 /\
    animationProgress this' <> animationProgress this.
Proof.
  intros this.
  assert (Hc : clock_of this = mkClock (Fin 0.01) false (Fin 0.01) true).
  { unfold this. rewrite run_clock, clock_of_new. simpl.
    rewrite tick_below by lra. simpl.
    f_equal. apply Fin_eq. lra. }
  revert Hc. generalize this. clear this. intros this Hc.
  assert (Hp : animationProgress this = Fin 0.01)
    by (change (progress (clock_of this) = Fin 0.01); now rewrite Hc).
  assert (Ha : isAnimating this = false)
    by (change (playing (clock_of this) = false); now rewrite Hc).
  split; [exact Hp |]. split; [exact Ha |].
  destruct (startAnimation_effect this) as [this' [He [H1 H2]]].
  exists this'. repeat split; try assumption.
  rewrite H2, Hp. intros Heq. inversion Heq. lra.
Qed.

(** C7, as the code has it: [setAnimationSpeed] returns for every number,
    zero and the negative ones and NaN among them, and stores it as the
    speed; no other field changes. *)
Theorem C7_speed_stored_unchecked (v : num) this :
  setAnimationSpeed v this = Returned tt (set_animationSpeed v this) /\
  animationSpeed (set_animationSpeed v this) = v.
Proof. split; reflexivity. Qed.

(** C7 fails as stated: on a new object, [setAnimationSpeed(-1)] returns
    and the speed is -1, no longer 0.01. *)
Lemma C7_counterexample :
  let this := after (new true) in
  (Fin (-1) <=? Fin 0)%num = true /\
  animationSpeed this = Fin 0.01 /\
  exists this',
    setAnimationSpeed (Fin (-1)) this = Returned tt this' /\
    animationSpeed this' = Fin (-1) /\
    animationSpeed this' <> animationSpeed this.
Proof.
  intros this.
  assert (Hc : clock_of this = mkClock (Fin 0) false (Fin 0.01) true)
    by apply clock_of_new.
  revert Hc. generalize this. clear this. intros this Hc.
  assert (Hs : animationSpeed this = Fin 0.01)
    by (change (speed (clock_of this) = Fin 0.01); now rewrite Hc).
  split.
  { unfold Num.leb. destruct (Rle_dec (-1) 0) as [_ | n]; [reflexivity | lra]. }
  split; [exact Hs |].
  exists (set_animationSpeed (Fin (-1)) this).
  split; [reflexivity |]. split; [now destruct this |].
  rewrite Hs. destruct this; simpl.
  intros Heq. inversion Heq. lra.
Qed.

(** ** The cone mesh *)

Lemma range_length (lo hi : Z) : length (range lo hi) = Z.to_nat (hi - lo).
Proof. unfold range. now rewrite length_map, length_seq. Qed.

(** A loop that pushes three elements onto an array each time round. *)
Lemma push3_length {A B : Type} (F : list A -> B -> list A) (l : list B) :
  (forall acc i, length (F acc i) = (length acc + 3)%nat) ->
  forall acc,
    length (fold_left F l acc) = (length acc + 3 * length l)%nat.
Proof.
  intros HF. induction l as [| i l IH]; intros acc; simpl; [lia |].
  rewrite IH, HF. lia.
Qed.

(** The same for two arrays filled side by side. *)
Lemma push3_pair_length {A B : Type}
      (F : list A * list A -> B -> list A * list A) (l : list B) :
  (forall a1 a2 i,
      length (fst (F (a1, a2) i)) = (length a1 + 3)%nat /\
      length (snd (F (a1, a2) i)) = (length a2 + 3)%nat) ->
  forall acc,
    length (fst (fold_left F l acc)) = (length (fst acc) + 3 * length l)%nat /\
    length (snd (fold_left F l acc)) = (length (snd acc) + 3 * length l)%nat.
Proof.
  intros HF. induction l as [| i l IH]; intros acc; simpl.
  - split; lia.
  - destruct (IH (F acc i)) as [H1 H2]. destruct acc as [a1 a2].
    destruct (HF a1 a2 i) as [H3 H4]. simpl. split; lia.
Qed.

(** The sizes of the three arrays, whatever the parameters: a ring of
    [segments + 1] vertices between the apex and the base centre, and
    [segments] triangles on the side and as many on the base. *)
Lemma coneArrays_lengths (p : ConeParams) :
  let n := Z.to_nat (segments p) in
  let ring := Z.to_nat (segments p + 1) in
  length (fst (fst (coneArrays p))) = (3 + 3 * ring + 3)%nat /\
  length (snd (fst (coneArrays p))) = (3 + 3 * ring + 3)%nat /\
  length (snd (coneArrays p)) = (3 * n + 3 * n)%nat.
Proof.
  intros n ring. unfold coneArrays. cbv zeta.
  match goal with
  | |- context [fold_left ?F (range 0 (segments p + 1)) ?acc] =>
      assert (HF : forall a1 a2 i,
                 length (fst (F (a1, a2) i)) = (length a1 + 3)%nat /\
                 length (snd (F (a1, a2) i)) = (length a2 + 3)%nat)
        by (intros a1 a2 i; simpl; rewrite !length_app; simpl; split; lia);
      destruct (push3_pair_length F (range 0 (segments p + 1)) HF acc)
        as [Hv Hn];
      clear HF;
      destruct (fold_left F (range 0 (segments p + 1)) acc)
        as [vertices normals]
  end.
  simpl in Hv, Hn. rewrite range_length, Z.sub_0_r in Hv, Hn.
  simpl fst; simpl snd.
  rewrite !length_app, Hv, Hn.
  split; [unfold ring; simpl; lia |]. split; [unfold ring; simpl; lia |].
  rewrite !push3_length
    by (intros acc i; rewrite length_app; simpl; lia).
  rewrite length_rev, !range_length. simpl length. unfold n.
  replace (segments p + 1 - 1)%Z with (segments p) by lia.
  rewrite Z.sub_0_r. lia.
Qed.

(** C5: with [n >= 3] segments the index array has [6n] entries ([n]
    triangles on the side and [n] on the base, three indices each) and
    the vertex array holds [n + 3] vertices of three coordinates (the apex,
    the [n + 1] vertices of the ring, the base centre), as does the array
    of normals; [setConeParams] uploads arrays of these sizes and counts
    [6n] indices to draw. *)
Theorem C5_cone_mesh_counts (r h : num) (n : Z) this :
  (3 <= n)%Z ->
  let '(vertices, normals, indices) := coneArrays (mkConeParams r h n) in
  Z.of_nat (length indices) = (3 * (n + n))%Z /\
  Z.of_nat (length indices) = (6 * n)%Z /\
  Z.of_nat (length vertices) = (3 * (1 + (n + 1) + 1))%Z /\
  Z.of_nat (length vertices) = (3 * (n + 3))%Z /\
  Z.of_nat (length normals) = (3 * (n + 3))%Z /\
  exists this',
    setConeParams (mkPartialConeParams (Some r) (Some h) (Some n)) this =
      Returned tt this' /\
    coneVertexCount this' = (6 * n)%Z /\
    coneBuffer this' = Some vertices /\
    coneNormalBuffer this' = Some normals /\
    option_map (@length Z) (coneIndexBuffer this') =
      Some (length indices).
Proof.
  intros Hn.
  pose proof (coneArrays_lengths (mkConeParams r h n)) as Hlen.
  pose proof (setConeParams_eq
                (mkPartialConeParams (Some r) (Some h) (Some n)) this) as Heq.
  cbv zeta in Hlen, Heq. simpl segments in Hlen.
  replace (spread (coneParams this)
                  (mkPartialConeParams (Some r) (Some h) (Some n)))
    with (mkConeParams r h n) in Heq by reflexivity.
  destruct (coneArrays (mkConeParams r h n)) as [[vertices normals] indices].
  simpl in Hlen, Heq. destruct Hlen as [Hv [Hnm Hi]].
  repeat split; try lia.
  eexists. split; [exact Heq |].
  destruct this.
  split; [change (Z.of_nat (length indices) = (6 * n)%Z); lia |].
  split; [reflexivity |]. split; [reflexivity |].
  change (Some (length (Uint16Array indices)) = Some (length indices)).
  unfold Uint16Array. now rewrite length_map.
Qed.

(** C5 at radius 1, height 2 and 4 segments: 7 vertices (21 coordinates)
    and 24 index entries. *)
Lemma C5_witness :
  (3 <= 4)%Z /\
  let '(vertices, normals, indices) :=
    coneArrays (mkConeParams (Fin 1) (Fin 2) 4) in
  length vertices = 21%nat /\ length indices = 24%nat.
Proof.
  split; [lia |].
  pose proof (C5_cone_mesh_counts (Fin 1) (Fin 2) 4 fieldInitialisers
                ltac:(lia)) as H.
  destruct (coneArrays (mkConeParams (Fin 1) (Fin 2) 4))
    as [[vertices normals] indices].
  destruct H as [_ [Hi [_ [Hv _]]]]. split; lia.
Defined.

Lemma setConeParams_returns (params : PartialConeParams) this :
  let p := spread (coneParams this) params in
  exists this',
    setConeParams params this = Returned tt this' /\
    coneParams this' = p /\
    coneVertexCount this' = Z.of_nat (length (snd (coneArrays p))).
Proof.
  intros p. eexists. split; [apply setConeParams_eq |].
  fold p. destruct this; simpl. split; reflexivity.
Qed.

(** C8, as the code has it: [setConeParams] checks nothing.  For every
    argument it returns, stores the given fields over the old ones, builds
    the three arrays from the result and uploads them. *)
Theorem C8_cone_params_unchecked (params : PartialConeParams) this :
  let p := spread (coneParams this) params in
  exists this',
    setConeParams params this = Returned tt this' /\
    coneParams this' = p /\
    coneBuffer this' = Some (fst (fst (coneArrays p))) /\
    coneNormalBuffer this' = Some (snd (fst (coneArrays p))) /\
    coneIndexBuffer this' = Some (Uint16Array (snd (coneArrays p))) /\
    coneVertexCount this' = Z.of_nat (length (snd (coneArrays p))).
Proof.
  intros p. eexists. split; [apply setConeParams_eq |].
  fold p. destruct this; simpl. repeat split; reflexivity.
Qed.

(** The object after a successful [initialize]. *)
Lemma initialize_fields info this :
  let this' := after (initialize true true true info this) in
  program this' = true /\
  coneParams this' = coneParams this /\
  coneVertexCount this' =
    Z.of_nat (length (snd (coneArrays (coneParams this)))) /\
  coneBuffer this' = Some (fst (fst (coneArrays (coneParams this)))) /\
  showIntermediateFrames this' = showIntermediateFrames this.
Proof.
  destruct (initialize_eq true true true info this)
    as [[message [Hf _]] | [axes [directions [_ Heq]]]];
    [discriminate |].
  cbv zeta in *. rewrite Heq, render_eq.
  destruct this. repeat split; reflexivity.
Qed.

Lemma coneParams_new :
  coneParams (after (new true)) = mkConeParams (Fin 1) (Fin 2) 32.
Proof. reflexivity. Qed.

(** C8 fails as stated: on an initialised object (radius 1, height 2, 32
    segments, 192 indices to draw), [setConeParams] with radius 0, height
    -1 and 2 segments returns; the three values are stored and the mesh is
    rebuilt with 12 indices. *)
Lemma C8_counterexample :
  let this := run [Initialize true true true ""] (after (new true)) in
  let params :=
    mkPartialConeParams (Some (Fin 0)) (Some (Fin (-1))) (Some 2%Z) in
  (2 < 3)%Z /\ (Fin 0 <=? Fin 0)%num = true /\
  (Fin (-1) <=? Fin 0)%num = true /\
  coneParams this = mkConeParams (Fin 1) (Fin 2) 32 /\
  coneVertexCount this = 192%Z /\
  exists this',
    setConeParams params this = Returned tt this' /\
    coneParams this' = mkConeParams (Fin 0) (Fin (-1)) 2 /\
    coneVertexCount this' = 12%Z.
Proof.
  intros this params.
  assert (Hfields : coneParams this = mkConeParams (Fin 1) (Fin 2) 32 /\
                    coneVertexCount this = 192%Z).
  { unfold this. rewrite run_cons, run_nil.
    change (call (Initialize true true true ""))
      with (initialize true true true "").
    destruct (initialize_fields "" (after (new true))) as [_ [Hp [Hc _]]].
    cbv zeta in Hp, Hc. rewrite Hp, Hc, coneParams_new.
    destruct (coneArrays_lengths (mkConeParams (Fin 1) (Fin 2) 32))
      as [_ [_ Hi]].
    rewrite Hi. split; reflexivity. }
  revert Hfields. generalize this. clear this. intros this [Hp Hc].
  split; [lia |].
  split.
  { unfold Num.leb. destruct (Rle_dec 0 0) as [_ | n]; [reflexivity | lra]. }
  split.
  { unfold Num.leb. destruct (Rle_dec (-1) 0) as [_ | n]; [reflexivity | lra]. }
  split; [exact Hp |]. split; [exact Hc |].
  destruct (setConeParams_returns params this) as [this' [He [H1 H2]]].
  exists this'. split; [exact He |].
  rewrite H1, H2, Hp.
  split; [reflexivity |].
  change (spread (mkConeParams (Fin 1) (Fin 2) 32) params)
    with (mkConeParams (Fin 0) (Fin (-1)) 2).
  destruct (coneArrays_lengths (mkConeParams (Fin 0) (Fin (-1)) 2))
    as [_ [_ Hi]].
  rewrite Hi. reflexivity.
Qed.

(** ** Playing in a loop *)

Lemma progress_clock this : animationProgress this = progress (clock_of this).
Proof. reflexivity. Qed.

Lemma playing_clock this : isAnimating this = playing (clock_of this).
Proof. reflexivity. Qed.

Lemma speed_clock this : animationSpeed this = speed (clock_of this).
Proof. reflexivity. Qed.

Lemma looping_clock this : loopAnimation this = looping (clock_of this).
Proof. reflexivity. Qed.

Lemma frames_0 this : frames 0 this = this.
Proof. reflexivity. Qed.

Lemma render_returns this : render this = Returned tt (after (render this)).
Proof. now rewrite render_eq. Qed.

(** The clock after [n] frames is the clock stepped [n] times. *)
Lemma clock_frames_iter (n : nat) this :
  clock_of (frames n this) = Nat.iter n tick (clock_of this).
Proof.
  induction n as [| n IH]; [reflexivity |].
  rewrite clock_frames, IH. reflexivity.
Qed.

Lemma accumulated_S (j : nat) (s : num) :
  accumulated (S j) s = (accumulated j s + s)%num.
Proof. reflexivity. Qed.

(** Over the real numbers the accumulated sum of [j] steps is [j * s]; a
    sum of floating-point numbers agrees with it up to rounding. *)
Lemma accumulated_Fin (j : nat) (s : R) :
  accumulated j (Fin s) = Fin (INR j * s).
Proof.
  induction j as [| j IH].
  - unfold accumulated. simpl. apply Fin_eq. lra.
  - rewrite accumulated_S, IH, add_Fin. apply Fin_eq.
    rewrite S_INR. ring.
Qed.

Lemma iter_fixed {A : Type} (f : A -> A) (x : A) (n : nat) :
  f x = x -> Nat.iter n f x = x.
Proof.
  intros H. induction n as [| n IH]; [reflexivity |].
  rewrite Nat.iter_succ_r, H. exact IH.
Qed.

(** A sequence of iterates that comes back to its start after [K] steps
    has period [K]. *)
Lemma iter_period {A : Type} (f : A -> A) (x : A) (K N : nat) :
  Nat.iter K f x = x -> Nat.iter N f x = Nat.iter (N mod K) f x.
Proof.
  intros H.
  assert (Hq : forall q, Nat.iter (K * q) f x = x).
  { induction q as [| q IH]; [now rewrite Nat.mul_0_r |].
    now rewrite Nat.mul_succ_r, Nat.iter_add, H. }
  transitivity (Nat.iter (N mod K + K * (N / K)) f x).
  - f_equal. rewrite Nat.add_comm. apply Nat.div_mod_eq.
  - now rewrite Nat.iter_add, Hq.
Qed.

(** A clock that plays from progress 0: as long as the code's comparison
    of the sum with 1 fails, the progress is the accumulated sum. *)
Lemma clock_rise (k : nat) (s : num) (lo : bool) (c : Clock) :
  c = mkClock (Fin 0) true s lo ->
  (forall j, (j < k)%nat ->
     (progress (Nat.iter j tick c) + s >=? Fin 1)%num = false) ->
  forall j, (j <= k)%nat ->
    Nat.iter j tick c = mkClock (accumulated j s) true s lo.
Proof.
  intros Hc Hbelow. induction j as [| j IH]; intros Hj; [exact Hc |].
  assert (Hlt : (j < k)%nat) by lia.
  assert (Hle : (j <= k)%nat) by lia.
  pose proof (Hbelow j Hlt) as Hb.
  change (Nat.iter (S j) tick c) with (tick (Nat.iter j tick c)).
  rewrite (IH Hle) in Hb |- *.
  cbn [progress] in Hb.
  unfold tick. cbn [progress playing speed looping]. cbv zeta.
  rewrite Hb. reflexivity.
Qed.

(** The hypotheses of the closed forms, read on the clock. *)
Lemma below_on_clock (k : nat) this :
  (forall j, (j < k)%nat ->
     (animationProgress (frames j this) + animationSpeed this >=? Fin 1)%num
     = false) ->
  forall j, (j < k)%nat ->
    (progress (Nat.iter j tick (clock_of this)) + animationSpeed this
     >=? Fin 1)%num = false.
Proof.
  intros H j Hj. rewrite <- clock_frames_iter, <- progress_clock.
  now apply H.
Qed.

(** In a loop a clock that plays keeps playing, and no frame changes the
    speed or the loop flag. *)
Lemma loop_invariant this :
  isAnimating this = true ->
  loopAnimation this = true ->
  forall j,
    playing (clock_of (frames j this)) = true /\
    looping (clock_of (frames j this)) = true /\
    speed (clock_of (frames j this)) = animationSpeed this.
Proof.
  intros Ha Hl. induction j as [| j [IH1 [IH2 IH3]]].
  - rewrite frames_0. repeat split; assumption.
  - rewrite clock_frames.
    remember (clock_of (frames j this)) as c eqn:Hc.
    destruct c as [p a s l]. cbn [playing looping speed] in IH1, IH2, IH3.
    subst a l. unfold tick. cbn [progress playing speed looping]. cbv zeta.
    destruct (p + s >=? Fin 1)%num; repeat split; assumption.
Qed.

(** C1, as the code has it: in a loop that plays, at every speed, every
    frame returns, keeps the clock Playing, adds the speed to the
    progress and, when the sum is 1 or more, sets the progress to 0: the
    overshoot is dropped.  So, playing from progress 0, let frame [k] be
    the first whose step brings the progress to 1 or more, by the code's
    own comparison: the progress is 0 again after [k + 1] frames, and
    after [N] frames it is the sum accumulated in [N mod (k + 1)] steps
    from 0. *)
Theorem C1_loop_resets_to_zero this :
  isAnimating this = true ->
  loopAnimation this = true ->
  (forall j,
      render (frames j this) = Returned tt (frames (S j) this) /\
      isAnimating (frames (S j) this) = true /\
      animationProgress (frames (S j) this) =
        let p :=
          (animationProgress (frames j this) + animationSpeed this)%num in
        if (p >=? Fin 1)%num then Fin 0 else p) /\
  (forall k N,
      animationProgress this = Fin 0 ->
      (forall j, (j < k)%nat ->
         (animationProgress (frames j this) + animationSpeed this
          >=? Fin 1)%num = false) ->
      (animationProgress (frames k this) + animationSpeed this
       >=? Fin 1)%num = true ->
      animationProgress (frames (S k) this) = Fin 0 /\
      animationProgress (frames N this) =
        accumulated (N mod S k) (animationSpeed this)).
Proof.
  intros Ha Hl. split.
  - intros j.
    split; [rewrite frames_S_last; apply render_returns |].
    destruct (loop_invariant this Ha Hl j) as [H1 [H2 H3]].
    rewrite playing_clock, (progress_clock (frames (S j) this)).
    rewrite clock_frames, (progress_clock (frames j this)).
    remember (clock_of (frames j this)) as c eqn:Hc.
    destruct c as [p a s l]. cbn [playing looping speed] in H1, H2, H3.
    subst a l. rewrite <- H3.
    unfold tick. cbn [progress playing speed looping]. cbv zeta.
    destruct (p + s >=? Fin 1)%num; split; reflexivity.
  - intros k N Hp Hbelow Hreach.
    assert (Hc : clock_of this =
                 mkClock (Fin 0) true (animationSpeed this) true)
      by (unfold clock_of; now rewrite Ha, Hl, Hp).
    pose proof (clock_rise k (animationSpeed this) true (clock_of this) Hc
                  (below_on_clock k this Hbelow)) as Hrise.
    assert (Hback : Nat.iter (S k) tick (clock_of this) = clock_of this).
    { change (Nat.iter (S k) tick (clock_of this))
        with (tick (Nat.iter k tick (clock_of this))).
      rewrite progress_clock, clock_frames_iter in Hreach.
      rewrite (Hrise k (Nat.le_refl k)) in Hreach |- *.
      cbn [progress] in Hreach.
      unfold tick. cbn [progress playing speed looping]. cbv zeta.
      rewrite Hreach. now rewrite Hc. }
    split.
    + rewrite progress_clock, clock_frames_iter, Hback, Hc. reflexivity.
    + rewrite progress_clock, clock_frames_iter.
      rewrite (iter_period tick _ (S k) N Hback).
      rewrite Hrise; [reflexivity |].
      assert (Hb : (N mod S k < S k)%nat)
        by (apply Nat.mod_upper_bound; discriminate).
      lia.
Qed.

(** C1 at speed 0.3: the fourth frame is the first to reach 1, so four
    frames make a loop; the progress is 0 after four frames and one step
    of 0.3 after five. *)
Lemma C1_witness :
  let this :=
    run [SetAnimationSpeed (Fin 0.3); StartAnimation] (after (new true)) in
  (isAnimating this = true /\ loopAnimation this = true /\
   animationProgress this = Fin 0 /\
   (animationProgress (frames 0 this) + animationSpeed this >=? Fin 1)%num
   = false /\
   (animationProgress (frames 1 this) + animationSpeed this >=? Fin 1)%num
   = false /\
   (animationProgress (frames 2 this) + animationSpeed this >=? Fin 1)%num
   = false /\
   (animationProgress (frames 3 this) + animationSpeed this >=? Fin 1)%num
   = true) /\
  animationProgress (frames 4 this) = Fin 0 /\
  animationProgress (frames 5 this) =
    accumulated (5 mod 4) (animationSpeed this).
Proof.
  intros this.
  assert (Hc : clock_of this = mkClock (Fin 0) true (Fin 0.3) true)
    by (unfold this; rewrite run_clock, clock_of_new; reflexivity).
  revert Hc. generalize this. clear this. intros this Hc.
  assert (Ha : isAnimating this = true) by (now rewrite playing_clock, Hc).
  assert (Hl : loopAnimation this = true) by (now rewrite looping_clock, Hc).
  assert (Hs : animationSpeed this = Fin 0.3) by (now rewrite speed_clock, Hc).
  assert (Hp : animationProgress this = Fin 0)
    by (now rewrite progress_clock, Hc).
  assert (H0 : (animationProgress (frames 0 this) + animationSpeed this
                >=? Fin 1)%num = false).
  { rewrite frames_0, Hs, Hp, add_Fin. apply geb_Fin_false. lra. }
  assert (K1 : clock_of (frames 1 this) =
               mkClock (Fin (0 + 0.3)) true (Fin 0.3) true).
  { rewrite clock_frames, frames_0, Hc. now rewrite tick_below by lra. }
  assert (H1 : (animationProgress (frames 1 this) + animationSpeed this
                >=? Fin 1)%num = false).
  { rewrite Hs, progress_clock, K1. cbn [progress].
    rewrite add_Fin. apply geb_Fin_false. lra. }
  assert (K2 : clock_of (frames 2 this) =
               mkClock (Fin (0 + 0.3 + 0.3)) true (Fin 0.3) true).
  { rewrite clock_frames, K1. now rewrite tick_below by lra. }
  assert (H2 : (animationProgress (frames 2 this) + animationSpeed this
                >=? Fin 1)%num = false).
  { rewrite Hs, progress_clock, K2. cbn [progress].
    rewrite add_Fin. apply geb_Fin_false. lra. }
  assert (K3 : clock_of (frames 3 this) =
               mkClock (Fin (0 + 0.3 + 0.3 + 0.3)) true (Fin 0.3) true).
  { rewrite clock_frames, K2. now rewrite tick_below by lra. }
  assert (H3 : (animationProgress (frames 3 this) + animationSpeed this
                >=? Fin 1)%num = true).
  { rewrite Hs, progress_clock, K3. cbn [progress].
    rewrite add_Fin. apply geb_Fin_true. lra. }
  assert (Hbelow : forall j, (j < 3)%nat ->
     (animationProgress (frames j this) + animationSpeed this >=? Fin 1)%num
     = false).
  { intros j Hj. destruct j as [| [| [| j]]];
      [exact H0 | exact H1 | exact H2 | lia]. }
  split; [repeat split; assumption |].
  exact (proj2 (C1_loop_resets_to_zero this Ha Hl) 3%nat 5%nat Hp Hbelow H3).
Defined.

(** C1 fails as stated: at speed 0.75 the first frame brings the progress
    to 0.75 and the second, whose sum is 1.5, to 0; a wrap by subtraction
    would give 0.5, which is [(2 * 0.75) mod 1]. *)
Lemma C1_counterexample :
  let this :=
    run [SetAnimationSpeed (Fin 0.75); StartAnimation] (after (new true)) in
  loopAnimation this = true /\
  isAnimating this = true /\
  animationSpeed this = Fin 0.75 /\
  animationProgress this = Fin 0 /\
  animationProgress (frames 1 this) = Fin 0.75 /\
  animationProgress (frames 2 this) = Fin 0 /\
  2 * 0.75 = IZR 1 + 0.5 /\ 0 <= 0.5 < 1 /\
  Fin 0 <> Fin 0.5.
Proof.
  intros this.
  assert (Hc : clock_of this = mkClock (Fin 0) true (Fin 0.75) true)
    by (unfold this; rewrite run_clock, clock_of_new; reflexivity).
  revert Hc. generalize this. clear this. intros this Hc.
  assert (H1 : clock_of (frames 1 this) =
               mkClock (Fin 0.75) true (Fin 0.75) true).
  { rewrite clock_frames, frames_0, Hc.
    rewrite tick_below by lra. f_equal. apply Fin_eq. lra. }
  assert (H2 : clock_of (frames 2 this) =
               mkClock (Fin 0) true (Fin 0.75) true).
  { rewrite clock_frames, H1. now rewrite tick_loop by lra. }
  split; [now rewrite looping_clock, Hc |].
  split; [now rewrite playing_clock, Hc |].
  split; [now rewrite speed_clock, Hc |].
  split; [now rewrite progress_clock, Hc |].
  split; [now rewrite progress_clock, H1 |].
  split; [now rewrite progress_clock, H2 |].
  split; [lra |]. split; [lra |].
  intros Heq. inversion Heq. lra.
Qed.

(** ** Playing once *)

Lemma tick_speed (c : Clock) : speed (tick c) = speed c.
Proof.
  unfold tick. destruct (playing c); [| reflexivity].
  destruct (progress c + speed c >=? Fin 1)%num; [| reflexivity].
  now destruct (looping c).
Qed.

Lemma tick_looping (c : Clock) : looping (tick c) = looping c.
Proof.
  unfold tick. destruct (playing c); [| reflexivity].
  destruct (progress c + speed c >=? Fin 1)%num; [| reflexivity].
  now destruct (looping c).
Qed.

Lemma frames_speed (n : nat) this :
  animationSpeed (frames n this) = animationSpeed this.
Proof.
  induction n as [| n IH]; [reflexivity |].
  change (speed (clock_of (frames (S n) this)) = animationSpeed this).
  now rewrite clock_frames, tick_speed.
Qed.

Lemma frames_looping (n : nat) this :
  loopAnimation (frames n this) = loopAnimation this.
Proof.
  induction n as [| n IH]; [reflexivity |].
  change (looping (clock_of (frames (S n) this)) = loopAnimation this).
  now rewrite clock_frames, tick_looping.
Qed.

(** A frame of a stopped clock leaves the clock as it is. *)
Lemma tick_stopped (c : Clock) : playing c = false -> tick c = c.
Proof. intros H. unfold tick. now rewrite H. Qed.

(** A frame that stays below 1 keeps playing. *)
Lemma tick_playing_on (c : Clock) :
  playing c = true ->
  (progress c + speed c >=? Fin 1)%num = false ->
  playing (tick c) = true.
Proof. intros Hp Hg. unfold tick. now rewrite Hp, Hg. Qed.

(** Without loop, the frame that reaches 1 stops the clock at 1. *)
Lemma tick_saturates (c : Clock) :
  playing c = true -> looping c = false ->
  (progress c + speed c >=? Fin 1)%num = true ->
  progress (tick c) = Fin 1 /\ playing (tick c) = false.
Proof. intros Hp Hl Hg. unfold tick. now rewrite Hp, Hg, Hl. Qed.

(** C6: without loop, let frame [k] be the first whose step brings the
    progress to 1 or more.  The clock is Playing up to that frame; that
    frame sets the progress to exactly 1 and stops the clock; and after
    every later frame the clock is still Stopped with progress 1.  Every
    frame returns. *)
Theorem C6_saturates_and_stops (k : nat) this :
  isAnimating this = true ->
  loopAnimation this = false ->
  (forall j, (j < k)%nat ->
     (animationProgress (frames j this) + animationSpeed this >=? Fin 1)%num
     = false) ->
  (animationProgress (frames k this) + animationSpeed this >=? Fin 1)%num
  = true ->
  (forall j, render (frames j this) = Returned tt (frames (S j) this)) /\
  (forall j, (j <= k)%nat -> isAnimating (frames j this) = true) /\
  (forall m, (k < m)%nat ->
     isAnimating (frames m this) = false /\
     animationProgress (frames m this) = Fin 1).
Proof.
  intros Ha Hl Hbelow Hreach.
  assert (Hplay : forall j, (j <= k)%nat -> isAnimating (frames j this) = true).
  { induction j as [| j IH]; intros Hj; [exact Ha |].
    change (playing (clock_of (frames (S j) this)) = true).
    rewrite clock_frames. apply tick_playing_on.
    - apply IH. lia.
    - simpl. rewrite frames_speed. apply Hbelow. lia. }
  split; [intros j; rewrite frames_S_last; apply render_returns |].
  split; [exact Hplay |].
  assert (Hstop : isAnimating (frames (S k) this) = false /\
                  animationProgress (frames (S k) this) = Fin 1).
  { destruct (tick_saturates (clock_of (frames k this))) as [H1 H2].
    - apply Hplay. lia.
    - simpl. now rewrite frames_looping.
    - simpl. now rewrite frames_speed.
    - rewrite <- clock_frames in H1, H2. now split. }
  intros m Hm. induction m as [| m IH]; [lia |].
  destruct (Nat.eq_dec m k) as [-> | Hne]; [exact Hstop |].
  destruct IH as [IH1 IH2]; [lia |].
  pose proof (clock_frames m this) as Hstep.
  rewrite (tick_stopped (clock_of (frames m this)) IH1) in Hstep.
  change (playing (clock_of (frames (S m) this)) = false /\
          progress (clock_of (frames (S m) this)) = Fin 1).
  rewrite Hstep. now split.
Qed.

(** C6 at speed 0.5: the first frame stays below 1, the second reaches
    it; after three frames the clock is Stopped with progress 1. *)
Lemma C6_witness :
  let this :=
    run [SetLoopAnimation false; SetAnimationSpeed (Fin 0.5); StartAnimation]
        (after (new true)) in
  (isAnimating this = true /\ loopAnimation this = false /\
   (animationProgress (frames 0 this) + animationSpeed this >=? Fin 1)%num
   = false /\
   (animationProgress (frames 1 this) + animationSpeed this >=? Fin 1)%num
   = true) /\
  isAnimating (frames 1 this) = true /\
  isAnimating (frames 3 this) = false /\
  animationProgress (frames 3 this) = Fin 1.
Proof.
  intros this.
  assert (Hc : clock_of this = mkClock (Fin 0) true (Fin 0.5) false)
    by (unfold this; rewrite run_clock, clock_of_new; reflexivity).
  revert Hc. generalize this. clear this. intros this Hc.
  assert (Ha : isAnimating this = true) by (now rewrite playing_clock, Hc).
  assert (Hl : loopAnimation this = false) by (now rewrite looping_clock, Hc).
  assert (Hs : animationSpeed this = Fin 0.5) by (now rewrite speed_clock, Hc).
  assert (H0 : (animationProgress (frames 0 this) + animationSpeed this
                >=? Fin 1)%num = false).
  { rewrite frames_0, Hs, progress_clock, Hc. simpl progress.
    rewrite add_Fin. apply geb_Fin_false. lra. }
  assert (H1 : (animationProgress (frames 1 this) + animationSpeed this
                >=? Fin 1)%num = true).
  { rewrite Hs, progress_clock, clock_frames, frames_0, Hc.
    rewrite tick_below by lra. simpl progress.
    rewrite add_Fin. apply geb_Fin_true. lra. }
  assert (Hbelow : forall j, (j < 1)%nat ->
     (animationProgress (frames j this) + animationSpeed this >=? Fin 1)%num
     = false).
  { intros j Hj. replace j with 0%nat by lia. exact H0. }
  destruct (C6_saturates_and_stops 1 this Ha Hl Hbelow H1)
    as [_ [Hplay Hstop]].
  split; [repeat split; assumption |].
  split; [apply Hplay; lia |].
  apply Hstop. lia.
Defined.

(** ** What a frame draws *)

Lemma trailAlpha_Fin (i n : nat) :
  (0 < n)%nat -> trailAlpha i n = Fin (0.15 + INR i / INR n * 0.3).
Proof.
  intros Hn. unfold trailAlpha, Num.of_nat.
  assert (H0 : INR n <> 0) by (apply not_0_INR; lia).
  now rewrite div_Fin, mul_Fin, add_Fin.
Qed.

Lemma trailAlpha_increasing (i j n : nat) :
  (i < j < n)%nat -> num_lt (trailAlpha i n) (trailAlpha j n).
Proof.
  intros [Hij Hjn].
  rewrite !trailAlpha_Fin by lia. simpl.
  assert (Hn : 0 < INR n) by (apply lt_0_INR; lia).
  assert (Hlt : INR i < INR j) by (now apply lt_INR).
  assert (Hdiv : INR i / INR n < INR j / INR n).
  { unfold Rdiv. apply Rmult_lt_compat_r; [now apply Rinv_0_lt_compat | exact Hlt]. }
  lra.
Qed.

(** C9: a frame of an object with a program returns, and what it has
    drawn after the five lines is: when the clock is not Playing and the
    trail is shown, one cone per entry of the table, entry [i] of [N] with
    alpha [0.15 + (i/N) * 0.3], which increases with [i]; otherwise one
    cone with alpha 1, rotated by the SLERP of the two quaternions at the
    current progress. *)
Theorem C9_frame_draws this :
  program this = true ->
  let table := intermediateFrames this in
  let N := length table in
  exists this',
    render this = Returned tt this' /\
    canvas this' =
      lineDraws ++
      (if negb (isAnimating this) && showIntermediateFrames this
       then map (fun '(i, q) =>
                   DrawCone q (trailAlpha i N) (coneVertexCount this))
                (combine (seq 0 N) table)
       else [DrawCone (quat.slerp (quat (startOrientation this))
                                  (quat (endOrientation this))
                                  (animationProgress this))
                      (Fin 1) (coneVertexCount this)]) /\
    (forall i, (i < N)%nat ->
       trailAlpha i N = Fin (0.15 + INR i / INR N * 0.3)) /\
    (forall i j, (i < j < N)%nat ->
       num_lt (trailAlpha i N) (trailAlpha j N)).
Proof.
  intros Hprog table N.
  eexists. split; [apply render_eq |].
  split.
  - unfold table, N.
    destruct this as [cv pr b1 b2 b3 b4 b5 cp n so eo p a s sh t lo].
    simpl in Hprog. subst pr. simpl.
    unfold frameDraws, coneDraws, trailDraws, liveDraw; simpl.
    now rewrite andb_comm.
  - split.
    + intros i Hi. apply trailAlpha_Fin. lia.
    + intros i j Hij. now apply trailAlpha_increasing.
Qed.

(** C9 on an initialised object that is not playing: the frame draws the
    five lines and the trail. *)
Lemma C9_witness :
  let this := run [Initialize true true true ""] (after (new true)) in
  program this = true /\
  exists this',
    render this = Returned tt this' /\
    canvas this' =
      lineDraws ++
      map (fun '(i, q) =>
             DrawCone q (trailAlpha i (length (intermediateFrames this)))
                      (coneVertexCount this))
          (combine (seq 0 (length (intermediateFrames this)))
                   (intermediateFrames this)).
Proof.
  intros this.
  assert (H : program this = true /\ isAnimating this = false /\
              showIntermediateFrames this = true).
  { unfold this. rewrite run_cons, run_nil.
    split; [| split].
    - change (call (Initialize true true true ""))
        with (initialize true true true "").
      apply (initialize_fields "" (after (new true))).
    - rewrite playing_clock, call_clock, clock_of_new. reflexivity.
    - change (call (Initialize true true true ""))
        with (initialize true true true "").
      destruct (initialize_fields "" (after (new true)))
        as [_ [_ [_ [_ Hs]]]].
      cbv zeta in Hs. rewrite Hs. reflexivity. }
  revert H. generalize this. clear this. intros this [Hprog [Ha Hs]].
  split; [exact Hprog |].
  destruct (C9_frame_draws this Hprog) as [this' [Hr [Hc _]]].
  exists this'. split; [exact Hr |].
  rewrite Hc, Ha, Hs. reflexivity.
Defined.

(** ** gl-matrix at particular vectors *)

Ltac fin_arith := rewrite ?neg_Fin, ?mul_Fin, ?sub_Fin, ?add_Fin.

Lemma vec3_eq (a b c a' b' c' : R) :
  a = a' -> b = b' -> c = c' ->
  mkVec3 (Fin a) (Fin b) (Fin c) = mkVec3 (Fin a') (Fin b') (Fin c').
Proof. now intros -> -> ->. Qed.

Lemma quat_eq (a b c d a' b' c' d' : R) :
  a = a' -> b = b' -> c = c' -> d = d' ->
  mkQuat (Fin a) (Fin b) (Fin c) (Fin d) =
  mkQuat (Fin a') (Fin b') (Fin c') (Fin d').
Proof. now intros -> -> -> ->. Qed.

(** The vector of length 0 is its own normalisation. *)
Lemma normalize_zero : vec3.normalize zeroVec = zeroVec.
Proof.
  unfold vec3.normalize, zeroVec; simpl. fin_arith.
  rewrite gtb_Fin_false by lra. fin_arith.
  apply vec3_eq; lra.
Qed.

(** A vector of real components and squared length 1 is its own
    normalisation. *)
Lemma normalize_unit (a b c : R) :
  a * a + b * b + c * c = 1 ->
  vec3.normalize (mkVec3 (Fin a) (Fin b) (Fin c)) =
  mkVec3 (Fin a) (Fin b) (Fin c).
Proof.
  intros H. unfold vec3.normalize; simpl. fin_arith. rewrite H.
  rewrite gtb_Fin_true by lra.
  rewrite sqrt_Fin by lra. rewrite sqrt_1.
  rewrite div_Fin by lra. fin_arith.
  apply vec3_eq; field.
Qed.

Lemma quat_normalize_unit (a b c d : R) :
  a * a + b * b + c * c + d * d = 1 ->
  quat.normalize (mkQuat (Fin a) (Fin b) (Fin c) (Fin d)) =
  mkQuat (Fin a) (Fin b) (Fin c) (Fin d).
Proof.
  intros H. unfold quat.normalize; simpl. fin_arith. rewrite H.
  rewrite gtb_Fin_true by lra.
  rewrite sqrt_Fin by lra. rewrite sqrt_1.
  rewrite div_Fin by lra. fin_arith.
  apply quat_eq; field.
Qed.

(** From up to the vector of length 0: the identity. *)
Lemma rotationTo_up_zero : quat.rotationTo upVec zeroVec = quat.create.
Proof.
  unfold quat.rotationTo, vec3.dot, vec3.cross, vec3.fromValues, upVec,
    zeroVec; simpl. fin_arith.
  rewrite ltb_Fin_false by lra.
  rewrite gtb_Fin_false by lra.
  rewrite quat_normalize_unit by lra.
  apply quat_eq; lra.
Qed.

(** From up to up: the identity. *)
Lemma rotationTo_up_up : quat.rotationTo upVec upVec = quat.create.
Proof.
  unfold quat.rotationTo, vec3.dot, vec3.fromValues, upVec; simpl.
  fin_arith.
  rewrite ltb_Fin_false by lra.
  now rewrite gtb_Fin_true by lra.
Qed.

(** From up to down, its opposite: the half turn about the z axis, which
    is the cross product of the x axis and up. *)
Lemma rotationTo_up_down :
  quat.rotationTo upVec downVec =
  mkQuat (Fin 0) (Fin 0) (Fin 1) (Fin 0).
Proof.
  unfold quat.rotationTo, vec3.dot, vec3.cross, vec3.len, vec3.fromValues,
    upVec, downVec; simpl. fin_arith.
  rewrite ltb_Fin_true by lra.
  replace (0 * 0 - 0 * 1) with 0 by lra.
  replace (0 * 0 - 1 * 0) with 0 by lra.
  replace (1 * 1 - 0 * 0) with 1 by lra.
  fin_arith.
  replace (0 * 0 + 0 * 0 + 1 * 1) with 1 by lra.
  rewrite sqrt_Fin by lra. rewrite sqrt_1.
  rewrite ltb_Fin_false by lra.
  rewrite normalize_unit by lra.
  unfold quat.setAxisAngle, Num.PI; simpl. fin_arith.
  unfold Num.sin, Num.cos; simpl. fin_arith.
  replace (PI * 0.5) with (PI / 2) by lra.
  rewrite sin_PI2, cos_PI2.
  apply quat_eq; lra.
Qed.

(** Half way from the identity to the half turn about z: the quarter turn
    about z. *)
Lemma slerp_identity_halfturn_half :
  quat.slerp quat.create (mkQuat (Fin 0) (Fin 0) (Fin 1) (Fin 0)) (Fin 0.5) =
  mkQuat (Fin 0) (Fin 0) (Fin (sin (PI / 4))) (Fin (cos (PI / 4))).
Proof.
  unfold quat.slerp, quat.create, EPSILON; simpl. fin_arith.
  replace (0 * 0 + 0 * 0 + 0 * 1 + 1 * 0) with 0 by lra.
  rewrite ltb_Fin_false by lra. fin_arith.
  rewrite gtb_Fin_true by lra.
  rewrite acos_Fin by lra. rewrite acos_0.
  unfold Num.sin; simpl. fin_arith.
  rewrite sin_PI2.
  replace ((1 - 0.5) * (PI / 2)) with (PI / 4) by lra.
  replace (0.5 * (PI / 2)) with (PI / 4) by lra.
  rewrite !div_Fin by lra. fin_arith.
  apply quat_eq; try lra.
  rewrite cos_PI4, sin_PI4. lra.
Qed.

Lemma quarter_turn_unit :
  quat_unit (mkQuat (Fin 0) (Fin 0) (Fin (sin (PI / 4))) (Fin (cos (PI / 4)))).
Proof.
  unfold quat_unit; simpl.
  pose proof (sin2_cos2 (PI / 4)) as H. unfold Rsqr in H. lra.
Qed.

(** ** Setting an axis *)

Lemma setStartAxis_fields v this :
  exists this',
    setStartAxis v this = Returned tt this' /\
    startOrientation this' =
      mkOrientation (vec3.normalize v)
                    (quat.rotationTo upVec (vec3.normalize v)) /\
    endOrientation this' =
      mkOrientation (axis (endOrientation this))
                    (quat.rotationTo upVec (axis (endOrientation this))) /\
    table_fresh this'.
Proof.
  destruct (setStartAxis_eq v this) as [vertices Heq].
  eexists. split; [exact Heq |]. destruct this. repeat split.
Qed.

Lemma setEndAxis_fields v this :
  exists this',
    setEndAxis v this = Returned tt this' /\
    startOrientation this' =
      mkOrientation (axis (startOrientation this))
                    (quat.rotationTo upVec (axis (startOrientation this))) /\
    endOrientation this' =
      mkOrientation (vec3.normalize v)
                    (quat.rotationTo upVec (vec3.normalize v)) /\
    table_fresh this'.
Proof.
  destruct (setEndAxis_eq v this) as [vertices Heq].
  eexists. split; [exact Heq |]. destruct this. repeat split.
Qed.

Lemma axes_new :
  axis (startOrientation (after (new true))) = upVec /\
  axis (endOrientation (after (new true))) = mkVec3 (Fin 1) (Fin 0) (Fin 0).
Proof. split; reflexivity. Qed.

Lemma zero_axis_returns this :
  (exists this',
      setStartAxis zeroVec this = Returned tt this' /\
      axis (startOrientation this') = zeroVec) /\
  (exists this',
      setEndAxis zeroVec this = Returned tt this' /\
      axis (endOrientation this') = zeroVec).
Proof.
  split.
  - destruct (setStartAxis_fields zeroVec this) as [this' [He [Hs _]]].
    rewrite normalize_zero in Hs.
    exists this'. split; [exact He |]. now rewrite Hs.
  - destruct (setEndAxis_fields zeroVec this) as [this' [He [_ [Hs _]]]].
    rewrite normalize_zero in Hs.
    exists this'. split; [exact He |]. now rewrite Hs.
Qed.

(** C2, as the code has it: [setStartAxis] and [setEndAxis] return for the
    vector of length 0 too.  The stored axis becomes that vector, the
    quaternion derived from it is the identity, and the table is built
    anew from the two quaternions. *)
Theorem C2_zero_axis_stored this :
  (exists this',
      setStartAxis zeroVec this = Returned tt this' /\
      axis (startOrientation this') = zeroVec /\
      quat (startOrientation this') = quat.create /\
      table_fresh this') /\
  (exists this',
      setEndAxis zeroVec this = Returned tt this' /\
      axis (endOrientation this') = zeroVec /\
      quat (endOrientation this') = quat.create /\
      table_fresh this').
Proof.
  split.
  - destruct (setStartAxis_fields zeroVec this) as [this' [He [Hs [_ Ht]]]].
    rewrite normalize_zero, rotationTo_up_zero in Hs.
    exists this'. split; [exact He |]. rewrite Hs.
    split; [reflexivity |]. split; [reflexivity | exact Ht].
  - destruct (setEndAxis_fields zeroVec this) as [this' [He [_ [Hs Ht]]]].
    rewrite normalize_zero, rotationTo_up_zero in Hs.
    exists this'. split; [exact He |]. rewrite Hs.
    split; [reflexivity |]. split; [reflexivity | exact Ht].
Qed.

(** C2 fails as stated: on a new object, whose start axis is (0,1,0) and
    whose end axis is (1,0,0), [setStartAxis] and [setEndAxis] of (0,0,0)
    return, and the stored axis is (0,0,0) afterwards. *)
Lemma C2_counterexample :
  let this := after (new true) in
  axis (startOrientation this) = upVec /\
  axis (endOrientation this) = mkVec3 (Fin 1) (Fin 0) (Fin 0) /\
  (exists this',
      setStartAxis zeroVec this = Returned tt this' /\
      axis (startOrientation this') = zeroVec /\
      axis (startOrientation this') <> axis (startOrientation this)) /\
  (exists this',
      setEndAxis zeroVec this = Returned tt this' /\
      axis (endOrientation this') = zeroVec /\
      axis (endOrientation this') <> axis (endOrientation this)).
Proof.
  intros this.
  assert (H : axis (startOrientation this) = upVec /\
              axis (endOrientation this) = mkVec3 (Fin 1) (Fin 0) (Fin 0))
    by apply axes_new.
  revert H. generalize this. clear this. intros this [Hs He].
  split; [exact Hs |]. split; [exact He |].
  destruct (zero_axis_returns this) as [[s [Hrs Has]] [e [Hre Hae]]].
  split.
  - exists s. split; [exact Hrs |]. split; [exact Has |].
    rewrite Has, Hs. unfold zeroVec, upVec.
    intros Heq. inversion Heq. lra.
  - exists e. split; [exact Hre |]. split; [exact Hae |].
    rewrite Hae, He. unfold zeroVec.
    intros Heq. inversion Heq. lra.
Qed.

(** C10: after [setStartAxis((0,1,0))] and [setEndAxis((0,-1,0))] on a
    new object, the start quaternion is the identity and the end
    quaternion is the half turn about the z axis, so all their components
    are real numbers (none is NaN); and the sample at 0.5 is the quarter
    turn about the z axis, which is perpendicular to up: a unit
    quaternion. *)
Theorem C10_antiparallel_axes :
  let this := run [SetStartAxis upVec; SetEndAxis downVec] (after (new true)) in
  let qs := quat (startOrientation this) in
  let qe := quat (endOrientation this) in
  let half := quat.slerp qs qe (Fin 0.5) in
  axis (startOrientation this) = upVec /\
  axis (endOrientation this) = downVec /\
  qs = mkQuat (Fin 0) (Fin 0) (Fin 0) (Fin 1) /\
  qe = mkQuat (Fin 0) (Fin 0) (Fin 1) (Fin 0) /\
  quat_real qs /\ quat_real qe /\
  half = mkQuat (Fin 0) (Fin 0) (Fin (sin (PI / 4))) (Fin (cos (PI / 4))) /\
  half = quat.setAxisAngle (mkVec3 (Fin 0) (Fin 0) (Fin 1)) (Fin (PI / 2)) /\
  quat_real half /\ quat_unit half.
Proof.
  intros this.
  assert (H : startOrientation this = mkOrientation upVec quat.create /\
              endOrientation this =
              mkOrientation downVec (mkQuat (Fin 0) (Fin 0) (Fin 1) (Fin 0))).
  { assert (Hup : vec3.normalize upVec = upVec)
      by (apply normalize_unit; lra).
    assert (Hdown : vec3.normalize downVec = downVec)
      by (apply normalize_unit; lra).
    unfold this. rewrite !run_cons, run_nil.
    change (call (SetStartAxis upVec)) with (setStartAxis upVec).
    change (call (SetEndAxis downVec)) with (setEndAxis downVec).
    destruct (setStartAxis_fields upVec (after (new true)))
      as [this1 [He1 [Hs1 _]]].
    rewrite He1. change (after (Returned tt this1)) with this1.
    destruct (setEndAxis_fields downVec this1)
      as [this2 [He2 [Hs2 [Hd2 _]]]].
    rewrite He2. change (after (Returned tt this2)) with this2.
    rewrite Hs2, Hd2, Hs1. simpl axis.
    rewrite Hup, Hdown, rotationTo_up_up, rotationTo_up_down.
    split; reflexivity. }
  revert H. generalize this. clear this. intros this [Hs Hd].
  intros qs qe half.
  assert (Hhalf : half = mkQuat (Fin 0) (Fin 0) (Fin (sin (PI / 4)))
                                (Fin (cos (PI / 4)))).
  { unfold half, qs, qe. rewrite Hs, Hd. simpl quat.
    apply slerp_identity_halfturn_half. }
  rewrite Hhalf. unfold qs, qe. rewrite Hs, Hd.
  split; [reflexivity |]. split; [reflexivity |].
  split; [reflexivity |]. split; [reflexivity |].
  split; [repeat split |]. split; [repeat split |].
  split; [reflexivity |].
  split.
  { unfold quat.setAxisAngle; simpl. fin_arith.
    unfold Num.sin, Num.cos; simpl. fin_arith.
    replace (PI / 2 * 0.5) with (PI / 4) by lra.
    apply quat_eq; lra. }
  split; [repeat split | apply quarter_turn_unit].
Qed.

(** * Further properties of the code *)

(** ** Initialisation *)

Lemma generateDirectionVectors_fresh this :
  generateDirectionVectors this =
  Returned tt (set_directionVectorBuffer (Some (directionVertices this)) this).
Proof.
  unfold generateDirectionVectors, directionVertices, directionSegments,
    bind, read, assign.
  destruct (axis (startOrientation this)), (axis (endOrientation this)).
  reflexivity.
Qed.

(** A successful [initialize], step by step. *)
Lemma initialize_loaded (info : string) this :
  initialize true true true info this =
  render
    (set_directionVectorBuffer (Some (directionVertices this))
       (set_axisBuffer (Some axisVertices)
          (withCone (set_program true this)))).
Proof.
  unfold initialize, createShader, createProgram; simpl negb; cbv iota.
  unfold bind at 1, ret at 1. unfold bind at 1, ret at 1.
  unfold bind at 1, ret at 1. unfold bind at 1, assign at 1.
  unfold bind at 1. rewrite generateCone_eq.
  unfold bind at 1, generateAxisLines at 1, assign at 1.
  unfold bind at 1. rewrite generateDirectionVectors_fresh.
  destruct this; reflexivity.
Qed.

(** X1: [initialize] returns exactly when both shaders compile and the
    program links.  Then the object has a program, the cone arrays of its
    parameters in its three cone buffers with their index count, the two
    line buffers, and a first frame on the canvas.  Otherwise it throws, a
    compilation error before a linking error, and the object is as it
    was: nothing was assigned. *)
Theorem X1_initialize_all_or_nothing
        (vertexOk fragmentOk linkOk : bool) (info : string) this :
  if vertexOk && fragmentOk && linkOk
  then exists this',
      initialize vertexOk fragmentOk linkOk info this = Returned tt this' /\
      program this' = true /\
      coneParams this' = coneParams this /\
      coneBuffer this' = Some (fst (fst (coneArrays (coneParams this)))) /\
      coneNormalBuffer this' = Some (snd (fst (coneArrays (coneParams this)))) /\
      coneIndexBuffer this' =
        Some (Uint16Array (snd (coneArrays (coneParams this)))) /\
      coneVertexCount this' =
        Z.of_nat (length (snd (coneArrays (coneParams this)))) /\
      axisBuffer this' = Some axisVertices /\
      directionVectorBuffer this' = Some (directionVertices this) /\
      exists cones, canvas this' = lineDraws ++ cones
  else initialize vertexOk fragmentOk linkOk info this =
       Thrown (initializeError vertexOk fragmentOk info) this.
Proof.
  destruct vertexOk; [| reflexivity].
  destruct fragmentOk; [| reflexivity].
  destruct linkOk; [| reflexivity].
  simpl andb. cbv iota.
  rewrite initialize_loaded, render_eq.
  eexists. split; [reflexivity |].
  destruct this. unfold frameDraws.
  repeat (split; [reflexivity |]).
  eexists. reflexivity.
Qed.

(** The program and the canvas after a call. *)
Lemma call_program (c : Call) this :
  program (after (call c this)) = program this || loads c.
Proof.
  destruct c as [vertexOk fragmentOk linkOk info | | | | speed | show
                 | params | v | v | loop |]; simpl call; simpl loads;
    rewrite ?orb_false_r.
  - destruct vertexOk; [| now rewrite orb_false_r].
    destruct fragmentOk; [| now rewrite orb_false_r].
    destruct linkOk; [| now rewrite orb_false_r].
    rewrite initialize_loaded, render_eq, orb_true_r. now destruct this.
  - now destruct this.
  - now destruct this.
  - now destruct this.
  - now destruct this.
  - now destruct this.
  - rewrite setConeParams_eq. now destruct this.
  - destruct (setStartAxis_eq v this) as [vertices ->]. now destruct this.
  - destruct (setEndAxis_eq v this) as [vertices ->]. now destruct this.
  - now destruct this.
  - rewrite render_eq. now destruct this.
Qed.

Lemma call_canvas_unloaded (c : Call) this :
  program this = false -> loads c = false -> canvas this = [] ->
  canvas (after (call c this)) = [].
Proof.
  intros Hp Hl Hc.
  destruct c as [vertexOk fragmentOk linkOk info | | | | speed | show
                 | params | v | v | loop |]; simpl call; simpl in Hl.
  - destruct vertexOk; [| exact Hc].
    destruct fragmentOk; [| exact Hc].
    destruct linkOk; [discriminate | exact Hc].
  - now destruct this.
  - now destruct this.
  - now destruct this.
  - now destruct this.
  - now destruct this.
  - rewrite setConeParams_eq. now destruct this.
  - destruct (setStartAxis_eq v this) as [vertices ->]. now destruct this.
  - destruct (setEndAxis_eq v this) as [vertices ->]. now destruct this.
  - now destruct this.
  - rewrite render_eq. unfold frameDraws. rewrite Hp. now destruct this.
Qed.

Lemma program_new : program (after (new true)) = false.
Proof. reflexivity. Qed.

Lemma canvas_new : canvas (after (new true)) = [].
Proof. reflexivity. Qed.

Lemma run_unloaded (cs : list Call) : forall this,
  program this = false -> canvas this = [] ->
  existsb loads cs = false ->
  program (run cs this) = false /\ canvas (run cs this) = [].
Proof.
  induction cs as [| c cs IH]; intros this Hp Hc Hl; [now split |].
  simpl in Hl. apply orb_false_iff in Hl. destruct Hl as [Hl1 Hl2].
  rewrite run_cons. apply IH; [| | exact Hl2].
  - now rewrite call_program, Hp, Hl1.
  - now apply call_canvas_unloaded.
Qed.

(** X2: as long as no call of [initialize] has succeeded, the object has
    no program and its canvas is empty, whatever was called and however
    many frames ran: every draw method returns at its first line. *)
Theorem X2_nothing_drawn_before_initialize (cs : list Call) :
  existsb loads cs = false ->
  program (run cs (after (new true))) = false /\
  canvas (run cs (after (new true))) = [].
Proof.
  intros Hl. apply run_unloaded; [apply program_new | apply canvas_new | exact Hl].
Qed.

(** X2 for a failed initialisation followed by play and two frames. *)
Lemma X2_witness :
  existsb loads [Initialize true false true ""; StartAnimation; Frame; Frame]
  = false /\
  canvas (run [Initialize true false true ""; StartAnimation; Frame; Frame]
              (after (new true))) = [].
Proof.
  split; [reflexivity |].
  apply (X2_nothing_drawn_before_initialize
           [Initialize true false true ""; StartAnimation; Frame; Frame]
           eq_refl).
Defined.

Lemma run_program (cs : list Call) : forall this,
  program this = true -> program (run cs this) = true.
Proof.
  induction cs as [| c cs IH]; intros this Hp; [exact Hp |].
  rewrite run_cons. apply IH. now rewrite call_program, Hp.
Qed.

Lemma run_table_length (cs : list Call) :
  length (intermediateFrames (run cs (after (new true)))) = 21%nat.
Proof.
  assert (Hq0 : quats_derived (after (new true))) by (split; reflexivity).
  assert (Ht0 : table_fresh (after (new true))) by reflexivity.
  destruct (run_orientation cs _ Hq0 Ht0) as [_ Ht].
  rewrite Ht. apply sampleTable_length.
Qed.

Lemma coneDraws_length this :
  length (coneDraws this) =
  if showIntermediateFrames this && negb (isAnimating this)
  then length (intermediateFrames this) else 1%nat.
Proof.
  unfold coneDraws, trailDraws.
  destruct (showIntermediateFrames this && negb (isAnimating this));
    [| reflexivity].
  rewrite length_map, length_combine, length_seq. lia.
Qed.

(** X3: once a call of [initialize] has succeeded the object keeps its
    program through every later call, and every later frame issues 26
    draw calls (5 lines and the 21 cones of the trail) when the trail is
    shown and nothing is playing, and 6 (5 lines and one cone)
    otherwise. *)
Theorem X3_draw_calls_per_frame (cs more : list Call) :
  existsb loads cs = true ->
  let this := run more (run cs (after (new true))) in
  program this = true /\
  exists this',
    render this = Returned tt this' /\
    length (canvas this') =
      if showIntermediateFrames this && negb (isAnimating this)
      then 26%nat else 6%nat.
Proof.
  intros Hl.
  assert (Hp : program (run cs (after (new true))) = true).
  { clear more. revert Hl. generalize (after (new true)).
    induction cs as [| c cs IH]; intros this Hl; [discriminate |].
    rewrite run_cons. simpl in Hl.
    destruct (loads c) eqn:Hc.
    - apply run_program. now rewrite call_program, Hc, orb_true_r.
    - apply IH. exact Hl. }
  pose proof (run_program more _ Hp) as Hp'.
  pose proof (run_table_length (cs ++ more)) as Hlen.
  rewrite run_app in Hlen.
  revert Hp' Hlen. generalize (run more (run cs (after (new true)))).
  intros this Hp' Hlen. cbv zeta.
  split; [exact Hp' |].
  eexists. split; [apply render_eq |].
  assert (Hc : length (frameDraws this) =
               if showIntermediateFrames this && negb (isAnimating this)
               then 26%nat else 6%nat).
  { unfold frameDraws. rewrite Hp', length_app, coneDraws_length, Hlen.
    now destruct (showIntermediateFrames this && negb (isAnimating this)). }
  rewrite <- Hc. now destruct this.
Qed.

(** X3 after an initialisation and a click on play. *)
Lemma X3_witness :
  existsb loads [Initialize true true true ""] = true /\
  let this := run [StartAnimation]
                  (run [Initialize true true true ""] (after (new true))) in
  program this = true.
Proof.
  split; [reflexivity |].
  intros this.
  apply (X3_draw_calls_per_frame [Initialize true true true ""]
                                 [StartAnimation] eq_refl).
Defined.

(** ** The clock *)

(** X4: there is no resume.  A start after a stop or after a reset leaves
    the object exactly as a start alone does, with progress 0; a reset
    after a stop is a reset; and after a stop or a reset a further stop
    changes nothing. *)
Theorem X4_start_restarts this :
  after (startAnimation (after (stopAnimation this))) =
    after (startAnimation this) /\
  after (startAnimation (after (resetAnimation this))) =
    after (startAnimation this) /\
  after (resetAnimation (after (stopAnimation this))) =
    after (resetAnimation this) /\
  after (stopAnimation (after (stopAnimation this))) =
    after (stopAnimation this) /\
  after (stopAnimation (after (resetAnimation this))) =
    after (resetAnimation this) /\
  animationProgress (after (startAnimation (after (stopAnimation this)))) =
    Fin 0.
Proof. destruct this. repeat split. Qed.



(** The clock stays in range under every call with an admissible speed. *)
Lemma call_clock_in_range (c : Call) (k : Clock) :
  speed_ok c ->
  in_unit_interval (progress k) ->
  (exists s, speed k = Fin s /\ 0 <= s) ->
  in_unit_interval (progress (clock_call c k)) /\
  (exists s, speed (clock_call c k) = Fin s /\ 0 <= s).
Proof.
  intros Hc Hp [s [Hs Hs0]].
  destruct k as [p a sp lo]. simpl in *. subst sp.
  destruct p as [p |]; [| contradiction].
  assert (Hp01 : 0 <= p <= 1) by exact Hp.
  assert (Htick : in_unit_interval (progress (tick (mkClock (Fin p) a (Fin s) lo)))
                  /\ speed (tick (mkClock (Fin p) a (Fin s) lo)) = Fin s).
  { rewrite tick_speed. split; [| reflexivity].
    unfold tick; simpl. destruct a; [| exact Hp].
    rewrite add_Fin. unfold Num.geb, Num.leb.
    destruct (Rle_dec 1 (p + s)) as [Hge | Hlt].
    - destruct lo; simpl; lra.
    - simpl. lra. }
  destruct Htick as [Ht1 Ht2].
  destruct c as [vertexOk fragmentOk linkOk info | | | | speed | show
                 | params | v | v | loop |]; simpl clock_call;
    try (split; [exact Hp | now exists s]);
    try (split; [simpl; lra | now exists s]).
  - destruct (vertexOk && fragmentOk && linkOk).
    + split; [exact Ht1 | now exists s].
    + split; [exact Hp | now exists s].
  - split; [exact Hp | exact Hc].
  - split; [exact Ht1 | now exists s].
Qed.

(** X6: if every speed passed to [setAnimationSpeed] is a real number that
    is not negative, then after every sequence of calls and frames the
    progress is a real number between 0 and 1. *)
Theorem X6_progress_in_unit_interval (cs : list Call) :
  Forall speed_ok cs ->
  in_unit_interval (animationProgress (run cs (after (new true)))).
Proof.
  intros Hcs.
  rewrite progress_clock, run_clock, clock_of_new.
  assert (H : forall k,
             in_unit_interval (progress k) ->
             (exists s, speed k = Fin s /\ 0 <= s) ->
             in_unit_interval
               (progress (fold_left (fun k c => clock_call c k) cs k))).
  { induction Hcs as [| c cs Hc Hcs IH]; intros k Hp Hs; [exact Hp |].
    simpl. destruct (call_clock_in_range c k Hc Hp Hs) as [Hp' Hs'].
    now apply IH. }
  apply H; simpl; [lra |]. exists 0.01. split; [reflexivity | lra].
Qed.

(** X6 for play at speed 0.3 and two frames. *)
Lemma X6_witness :
  Forall speed_ok [SetAnimationSpeed (Fin 0.3); StartAnimation; Frame; Frame]
  /\
  in_unit_interval
    (animationProgress
       (run [SetAnimationSpeed (Fin 0.3); StartAnimation; Frame; Frame]
            (after (new true)))).
Proof.
  assert (H : Forall speed_ok
                [SetAnimationSpeed (Fin 0.3); StartAnimation; Frame; Frame]).
  { repeat constructor. exists 0.3. split; [reflexivity | lra]. }
  split; [exact H |].
  apply (X6_progress_in_unit_interval _ H).
Defined.

Lemma tick_loop_playing (c : Clock) :
  playing c = true -> looping c = true ->
  playing (tick c) = true /\ looping (tick c) = true /\
  forall p, progress (tick c) = Fin p -> p < 1.
Proof.
  intros Hp Hl. destruct c as [p a s lo]. simpl in *. subst a lo.
  unfold tick; simpl.
  destruct (p + s >=? Fin 1)%num eqn:Hg; simpl.
  - repeat split. intros q Hq. inversion Hq. lra.
  - repeat split. intros q Hq. rewrite Hq in Hg.
    unfold Num.geb, Num.leb in Hg.
    destruct (Rle_dec 1 q) as [Hge | Hlt]; [discriminate | lra].
Qed.

(** X7: with loop on, a playing clock never stops by itself: after any
    number of frames it is still Playing, for every speed, and a progress
    that is a real number is below 1 after every frame. *)
Theorem X7_loop_never_stops (n : nat) this :
  isAnimating this = true ->
  loopAnimation this = true ->
  isAnimating (frames n this) = true /\
  forall p, animationProgress (frames (S n) this) = Fin p -> p < 1.
Proof.
  intros Ha Hl.
  assert (H : forall m, playing (clock_of (frames m this)) = true /\
                        looping (clock_of (frames m this)) = true).
  { induction m as [| m [IH1 IH2]]; [now split |].
    rewrite clock_frames.
    destruct (tick_loop_playing _ IH1 IH2) as [H1 [H2 _]]. now split. }
  split; [apply H |].
  rewrite progress_clock, clock_frames.
  destruct (H n) as [H1 H2].
  apply (tick_loop_playing _ H1 H2).
Qed.

(** X7 after a click on play on a new object, whose loop flag is on. *)
Lemma X7_witness :
  let this := run [StartAnimation] (after (new true)) in
  (isAnimating this = true /\ loopAnimation this = true) /\
  isAnimating (frames 200 this) = true.
Proof.
  intros this.
  assert (Hc : clock_of this = mkClock (Fin 0) true (Fin 0.01) true)
    by (unfold this; rewrite run_clock, clock_of_new; reflexivity).
  revert Hc. generalize this. clear this. intros this Hc.
  assert (Ha : isAnimating this = true) by (now rewrite playing_clock, Hc).
  assert (Hl : loopAnimation this = true) by (now rewrite looping_clock, Hc).
  split; [now split |].
  apply (X7_loop_never_stops 200 this Ha Hl).
Defined.

(** ** The cone mesh, entry by entry *)

Lemma push_flat_map {A B : Type} (f : B -> list A) (l : list B) :
  forall acc,
    fold_left (fun acc i => acc ++ f i) l acc = acc ++ flat_map f l.
Proof.
  induction l as [| i l IH]; intros acc; simpl.
  - now rewrite app_nil_r.
  - now rewrite IH, app_assoc.
Qed.

Lemma push_pair_flat_map {A B : Type} (f g : B -> list A) (l : list B) :
  forall acc1 acc2,
    fold_left (fun '(a1, a2) i => (a1 ++ f i, a2 ++ g i)) l (acc1, acc2) =
    (acc1 ++ flat_map f l, acc2 ++ flat_map g l).
Proof.
  induction l as [| i l IH]; intros acc1 acc2; simpl.
  - now rewrite !app_nil_r.
  - now rewrite IH, !app_assoc.
Qed.

Lemma flat_map_length3 {A B : Type} (f : B -> list A) (l : list B) :
  (forall i, length (f i) = 3%nat) ->
  length (flat_map f l) = (3 * length l)%nat.
Proof.
  intros Hf. induction l as [| i l IH]; simpl; [reflexivity |].
  rewrite length_app, Hf, IH. lia.
Qed.

Lemma range_nil (lo hi : Z) : (hi <= lo)%Z -> range lo hi = [].
Proof.
  intros H. unfold range. replace (Z.to_nat (hi - lo)) with 0%nat by lia.
  reflexivity.
Qed.

Lemma range_In (lo hi x : Z) : In x (range lo hi) <-> (lo <= x < hi)%Z.
Proof.
  unfold range. rewrite in_map_iff. split.
  - intros [k [Hk Hin]]. apply in_seq in Hin. lia.
  - intros H. exists (Z.to_nat (x - lo)). split; [lia |].
    apply in_seq. lia.
Qed.

Lemma coneArrays_layout (p : ConeParams) :
  coneArrays p =
  ([Fin 0; (height p / Fin 2)%num; Fin 0]
     ++ flat_map (ringVertex p) (range 0 (segments p + 1))
     ++ [Fin 0; (- height p / Fin 2)%num; Fin 0],
   [Fin 0; Fin 1; Fin 0]
     ++ flat_map (ringNormal p) (range 0 (segments p + 1))
     ++ [Fin 0; Fin (-1); Fin 0],
   flat_map sideTriangle (range 0 (segments p))
     ++ flat_map (baseTriangle (segments p + 2))
                 (rev (range 1 (segments p + 1)))).
Proof.
  set (n := segments p). unfold coneArrays. cbv zeta.
  rewrite (push_pair_flat_map (ringVertex p) (ringNormal p)).
  rewrite (push_flat_map sideTriangle). simpl app at 3.
  rewrite push_flat_map.
  rewrite length_app, (flat_map_length3 (ringVertex p)) by reflexivity.
  rewrite range_length. fold n.
  assert (Hbase :
            flat_map
              (fun i : Z =>
                 [(Z.of_nat
                     (length [Fin 0; (height p / Fin 2)%num; Fin 0] +
                      3 * Z.to_nat (n + 1 - 0)) / 3)%Z;
                  (i + 1)%Z; i])
              (rev (range 1 (n + 1))) =
            flat_map (baseTriangle (n + 2)) (rev (range 1 (n + 1)))).
  { destruct (Z.le_gt_cases 0 n) as [Hn | Hn].
    - apply flat_map_ext. intros i. unfold baseTriangle. f_equal.
      replace (Z.of_nat (length [Fin 0; (height p / Fin 2)%num; Fin 0] +
                         3 * Z.to_nat (n + 1 - 0)))
        with ((n + 2) * 3)%Z by (simpl length; lia).
      apply Z.div_mul. lia.
    - now rewrite (range_nil 1 (n + 1)) by lia. }
  rewrite Hbase, <- app_assoc. reflexivity.
Qed.

(** X8: the layout of the three arrays that [generateCone] builds, for
    all parameters: the apex, the ring vertices 0 to [segments] in order
    and the base centre; their normals in the same order; and the
    triangles of the side from the apex, then those of the base from the
    base centre, whose index is [segments + 2], in reverse order. *)
Theorem X8_cone_arrays_layout (p : ConeParams) :
  let n := segments p in
  coneArrays p =
  ([Fin 0; (height p / Fin 2)%num; Fin 0]
     ++ flat_map (ringVertex p) (range 0 (n + 1))
     ++ [Fin 0; (- height p / Fin 2)%num; Fin 0],
   [Fin 0; Fin 1; Fin 0]
     ++ flat_map (ringNormal p) (range 0 (n + 1))
     ++ [Fin 0; Fin (-1); Fin 0],
   flat_map sideTriangle (range 0 n)
     ++ flat_map (baseTriangle (n + 2)) (rev (range 1 (n + 1)))).
Proof. intros n. apply coneArrays_layout. Qed.

(** The elements of the index array are indices of vertices. *)
Lemma cone_indices_in_range (p : ConeParams) (k : Z) :
  In k (snd (coneArrays p)) -> (0 <= k <= segments p + 2)%Z.
Proof.
  rewrite coneArrays_layout. simpl snd. intros Hin.
  apply in_app_or in Hin. destruct Hin as [Hin | Hin];
    apply in_flat_map in Hin; destruct Hin as [i [Hi Hk]].
  - apply range_In in Hi. unfold sideTriangle in Hk. simpl in Hk. lia.
  - apply in_rev in Hi. apply range_In in Hi.
    unfold baseTriangle in Hk. simpl in Hk. lia.
Qed.

Lemma Uint16Array_small (l : list Z) :
  Forall (fun k => (0 <= k < 65536)%Z) l -> Uint16Array l = l.
Proof.
  intros H. unfold Uint16Array. induction H as [| k l Hk Hl IH]; simpl.
  - reflexivity.
  - rewrite IH. f_equal. apply Z.mod_small. exact Hk.
Qed.

(** X9: with at most 65533 segments, every element of the index array is
    the index of a vertex of the vertex array (all three of its
    coordinates are there), and the 16-bit index buffer that
    [setConeParams] uploads holds the index array unchanged: no index
    wraps around. *)
Theorem X9_indices_within_vertices (r h : num) (n : Z) this :
  (n <= 65533)%Z ->
  let '(vertices, normals, indices) := coneArrays (mkConeParams r h n) in
  Forall (fun k => (0 <= 3 * k /\ 3 * k + 2 < Z.of_nat (length vertices))%Z)
         indices /\
  (exists this',
      setConeParams (mkPartialConeParams (Some r) (Some h) (Some n)) this =
        Returned tt this' /\
      coneBuffer this' = Some vertices /\
      coneIndexBuffer this' = Some indices /\
      coneVertexCount this' = Z.of_nat (length indices)).
Proof.
  intros Hn.
  pose proof (coneArrays_lengths (mkConeParams r h n)) as [Hv _].
  pose proof (cone_indices_in_range (mkConeParams r h n)) as Hin.
  pose proof (setConeParams_eq
                (mkPartialConeParams (Some r) (Some h) (Some n)) this) as Heq.
  cbv zeta in Heq.
  replace (spread (coneParams this)
                  (mkPartialConeParams (Some r) (Some h) (Some n)))
    with (mkConeParams r h n) in Heq by reflexivity.
  simpl segments in Hv, Hin.
  destruct (coneArrays (mkConeParams r h n)) as [[vertices normals] indices].
  simpl fst in *; simpl snd in *.
  assert (Hall : Forall (fun k => (0 <= k <= n + 2)%Z) indices)
    by (apply Forall_forall; exact Hin).
  split.
  - apply Forall_forall. intros k Hk. specialize (Hin k Hk).
    rewrite Hv. lia.
  - rewrite Uint16Array_small in Heq.
    + eexists. split; [exact Heq |]. destruct this. repeat split.
    + eapply Forall_impl; [| exact Hall]. simpl. intros k Hk. lia.
Qed.

(** X9 at 32 segments. *)
Lemma X9_witness :
  (32 <= 65533)%Z /\
  let '(vertices, normals, indices) :=
    coneArrays (mkConeParams (Fin 1) (Fin 2) 32) in
  Forall (fun k => (0 <= 3 * k /\ 3 * k + 2 < Z.of_nat (length vertices))%Z)
         indices.
Proof.
  split; [lia |].
  pose proof (X9_indices_within_vertices (Fin 1) (Fin 2) 32
                fieldInitialisers ltac:(lia)) as H.
  destruct (coneArrays (mkConeParams (Fin 1) (Fin 2) 32))
    as [[vertices normals] indices].
  apply H.
Defined.

Lemma vertexAt_0 (a b c : num) (rest : list num) :
  vertexAt (a :: b :: c :: rest) 0 = [a; b; c].
Proof. reflexivity. Qed.

Lemma vertexAt_S (a b c : num) (rest : list num) (k : nat) :
  vertexAt (a :: b :: c :: rest) (S k) = vertexAt rest k.
Proof.
  unfold vertexAt. replace (3 * S k)%nat with (3 + 3 * k)%nat by lia.
  reflexivity.
Qed.

Lemma vertexAt_flat_map {B : Type} (f : B -> list num) (tail : list num)
      (l : list B) :
  (forall j, length (f j) = 3%nat) ->
  forall k i, nth_error l k = Some i ->
              vertexAt (flat_map f l ++ tail) k = f i.
Proof.
  intros Hf. induction l as [| x l IH]; intros k i Hk.
  - destruct k; discriminate.
  - simpl flat_map. rewrite <- app_assoc.
    pose proof (Hf x) as Hx.
    destruct (f x) as [| a [| b [| c [| d t]]]] eqn:Ex; try discriminate.
    simpl app. destruct k as [| k].
    + rewrite vertexAt_0. simpl in Hk. inversion Hk. subst. now rewrite Ex.
    + rewrite vertexAt_S. now apply IH.
Qed.

Lemma vertexAt_flat_map_end {B : Type} (f : B -> list num)
      (tail : list num) (l : list B) :
  (forall j, length (f j) = 3%nat) ->
  vertexAt (flat_map f l ++ tail) (length l) = firstn 3 tail.
Proof.
  intros Hf. induction l as [| x l IH]; [reflexivity |].
  simpl flat_map. rewrite <- app_assoc.
  pose proof (Hf x) as Hx.
  destruct (f x) as [| a [| b [| c [| d t]]]]; try discriminate.
  simpl app. simpl length. now rewrite vertexAt_S.
Qed.

Lemma range_nth (lo hi : Z) (k : nat) :
  (Z.of_nat k < hi - lo)%Z ->
  nth_error (range lo hi) k = Some (lo + Z.of_nat k)%Z.
Proof.
  intros H. unfold range. rewrite nth_error_map, nth_error_seq.
  assert (Hlt : (k <? Z.to_nat (hi - lo))%nat = true)
    by (apply Nat.ltb_lt; lia).
  now rewrite Hlt.
Qed.

(** The vertices and the normals of the arrays, one by one. *)
Lemma cone_apex_at (p : ConeParams) :
  vertexAt (fst (fst (coneArrays p))) 0 =
    [Fin 0; (height p / Fin 2)%num; Fin 0] /\
  vertexAt (snd (fst (coneArrays p))) 0 = [Fin 0; Fin 1; Fin 0].
Proof. now rewrite coneArrays_layout. Qed.

Lemma cone_ring_at (p : ConeParams) (i : Z) :
  (0 <= i <= segments p)%Z ->
  vertexAt (fst (fst (coneArrays p))) (Z.to_nat i + 1) = ringVertex p i /\
  vertexAt (snd (fst (coneArrays p))) (Z.to_nat i + 1) = ringNormal p i.
Proof.
  intros Hi. rewrite coneArrays_layout. simpl fst; simpl snd. simpl app.
  rewrite Nat.add_1_r, !vertexAt_S.
  assert (Hnth : nth_error (range 0 (segments p + 1)) (Z.to_nat i) = Some i)
    by (rewrite range_nth by lia; f_equal; lia).
  split.
  - now apply (vertexAt_flat_map (ringVertex p)).
  - now apply (vertexAt_flat_map (ringNormal p)).
Qed.

Lemma cone_centre_at (p : ConeParams) :
  (0 <= segments p)%Z ->
  vertexAt (fst (fst (coneArrays p))) (Z.to_nat (segments p) + 2) =
    [Fin 0; (- height p / Fin 2)%num; Fin 0] /\
  vertexAt (snd (fst (coneArrays p))) (Z.to_nat (segments p) + 2) =
    [Fin 0; Fin (-1); Fin 0].
Proof.
  intros Hn. rewrite coneArrays_layout. simpl fst; simpl snd. simpl app.
  replace (Z.to_nat (segments p) + 2)%nat
    with (S (length (range 0 (segments p + 1))))
    by (rewrite range_length; lia).
  rewrite !vertexAt_S.
  now rewrite (vertexAt_flat_map_end (ringVertex p)),
    (vertexAt_flat_map_end (ringNormal p)).
Qed.

Lemma sin_Fin (x : R) : Num.sin (Fin x) = Fin (sin x).
Proof. reflexivity. Qed.

Lemma cos_Fin (x : R) : Num.cos (Fin x) = Fin (cos x).
Proof. reflexivity. Qed.

(** The angle of a ring vertex, when there is at least one segment. *)
Lemma ringTheta_Fin (r h : num) (n i : Z) :
  (1 <= n)%Z ->
  ringTheta (mkConeParams r h n) i = Fin (IZR i / IZR n * PI * 2).
Proof.
  intros Hn. unfold ringTheta, Num.of_Z, Num.PI; simpl segments.
  assert (H0 : IZR n <> 0) by (apply not_0_IZR; lia).
  now rewrite div_Fin, !mul_Fin.
Qed.

(** X10: with real radius and height and at least one segment, the ring
    closes: the last ring vertex, of index [segments + 1], has the
    position and the normal of the first, of index 1, which lies at
    (radius, -height/2, 0); the apex, of index 0, lies at (0, height/2, 0)
    and the base centre, of index [segments + 2], at (0, -height/2, 0). *)
Theorem X10_ring_closes (r h : R) (n : Z) :
  (1 <= n)%Z ->
  let p := mkConeParams (Fin r) (Fin h) n in
  let vertices := fst (fst (coneArrays p)) in
  let normals := snd (fst (coneArrays p)) in
  vertexAt vertices 0 = [Fin 0; Fin (h / 2); Fin 0] /\
  vertexAt vertices 1 = [Fin r; Fin (- h / 2); Fin 0] /\
  vertexAt vertices (Z.to_nat n + 1) = [Fin r; Fin (- h / 2); Fin 0] /\
  vertexAt normals (Z.to_nat n + 1) = vertexAt normals 1 /\
  vertexAt vertices (Z.to_nat n + 2) = [Fin 0; Fin (- h / 2); Fin 0].
Proof.
  intros Hn p vertices normals.
  assert (H0 : IZR n <> 0) by (apply not_0_IZR; lia).
  assert (Hfirst : IZR 0 / IZR n * PI * 2 = 0) by (field; exact H0).
  assert (Hlast : IZR n / IZR n * PI * 2 = 2 * PI) by (field; exact H0).
  assert (Hv0 : ringVertex p 0 = [Fin r; Fin (- h / 2); Fin 0]).
  { unfold ringVertex, p. rewrite !ringTheta_Fin by lia.
    simpl radius; simpl height.
    rewrite Hfirst, cos_Fin, sin_Fin, cos_0, sin_0, neg_Fin, !mul_Fin.
    rewrite div_Fin by lra.
    f_equal; [apply Fin_eq; lra |]. f_equal. f_equal. apply Fin_eq; lra. }
  assert (Hvn : ringVertex p n = [Fin r; Fin (- h / 2); Fin 0]).
  { unfold ringVertex, p. rewrite !ringTheta_Fin by lia.
    simpl radius; simpl height.
    rewrite Hlast, cos_Fin, sin_Fin, cos_2PI, sin_2PI, neg_Fin, !mul_Fin.
    rewrite div_Fin by lra.
    f_equal; [apply Fin_eq; lra |]. f_equal. f_equal. apply Fin_eq; lra. }
  assert (Hnn : ringNormal p n = ringNormal p 0).
  { unfold ringNormal, p. rewrite !ringTheta_Fin by lia.
    now rewrite Hfirst, Hlast, !cos_Fin, !sin_Fin, cos_0, sin_0, cos_2PI,
      sin_2PI. }
  destruct (cone_apex_at p) as [Ha _].
  destruct (cone_ring_at p 0 ltac:(simpl; lia)) as [Hr0 Hn0].
  destruct (cone_ring_at p n ltac:(simpl; lia)) as [Hrn Hnn'].
  destruct (cone_centre_at p ltac:(simpl; lia)) as [Hc _].
  simpl segments in Hc. simpl height in Ha, Hc.
  rewrite div_Fin in Ha by lra. rewrite neg_Fin, div_Fin in Hc by lra.
  unfold vertices, normals.
  change (Z.to_nat 0 + 1)%nat with 1%nat in Hr0, Hn0.
  rewrite Ha, Hr0, Hrn, Hnn', Hn0, Hc, Hv0, Hvn, Hnn. repeat split.
Qed.

(** X10 at radius 1, height 2 and 4 segments: vertex 5 is vertex 1. *)
Lemma X10_witness :
  (1 <= 4)%Z /\
  vertexAt (fst (fst (coneArrays (mkConeParams (Fin 1) (Fin 2) 4)))) 5 =
  [Fin 1; Fin (- 2 / 2); Fin 0].
Proof.
  split; [lia |].
  apply (X10_ring_closes 1 2 4 ltac:(lia)).
Defined.

Lemma ringNormal_unit (r h : R) (n i : Z) :
  (1 <= n)%Z -> 0 < r * r + h * h ->
  exists a b c,
    ringNormal (mkConeParams (Fin r) (Fin h) n) i = [Fin a; Fin b; Fin c] /\
    a * a + b * b + c * c = 1.
Proof.
  intros Hn Hrh. unfold ringNormal. rewrite ringTheta_Fin by exact Hn.
  simpl radius; simpl height.
  set (theta := IZR i / IZR n * PI * 2).
  set (s := sqrt (r * r + h * h)).
  assert (Hs : 0 < s) by (apply sqrt_lt_R0; exact Hrh).
  assert (Hss : s * s = r * r + h * h) by (apply sqrt_sqrt; lra).
  rewrite !mul_Fin, add_Fin, sqrt_Fin by lra. fold s.
  rewrite !div_Fin by lra. rewrite cos_Fin, sin_Fin, !mul_Fin.
  exists (h / s * cos theta), (r / s), (h / s * sin theta).
  split; [reflexivity |].
  pose proof (sin2_cos2 theta) as Hsc. unfold Rsqr in Hsc.
  replace (h / s * cos theta * (h / s * cos theta) + r / s * (r / s) +
           h / s * sin theta * (h / s * sin theta))
    with ((h * h * (sin theta * sin theta + cos theta * cos theta) + r * r)
          / (s * s)) by (field; lra).
  rewrite Hsc, Hss. field. lra.
Qed.

(** X11: with real radius and height that are not both 0 and at least one
    segment, every normal of the array of normals (those of the apex, of
    the ring vertices and of the base centre) is a vector of real
    components of length 1. *)
Theorem X11_normals_are_unit (r h : R) (n : Z) (k : nat) :
  (1 <= n)%Z -> 0 < r * r + h * h -> (Z.of_nat k <= n + 2)%Z ->
  exists a b c,
    vertexAt (snd (fst (coneArrays (mkConeParams (Fin r) (Fin h) n)))) k =
      [Fin a; Fin b; Fin c] /\
    a * a + b * b + c * c = 1.
Proof.
  intros Hn Hrh Hk.
  set (p := mkConeParams (Fin r) (Fin h) n).
  destruct (Nat.eq_dec k 0) as [-> | Hk0].
  - destruct (cone_apex_at p) as [_ Ha]. rewrite Ha.
    exists 0, 1, 0. split; [reflexivity | lra].
  - destruct (Z.eq_dec (Z.of_nat k) (n + 2)) as [Hlast | Hring].
    + destruct (cone_centre_at p ltac:(simpl; lia)) as [_ Hc].
      simpl segments in Hc.
      replace k with (Z.to_nat n + 2)%nat by lia. rewrite Hc.
      exists 0, (-1), 0. split; [reflexivity | lra].
    + destruct (cone_ring_at p (Z.of_nat k - 1) ltac:(simpl; lia)) as [_ Hr].
      replace (Z.to_nat (Z.of_nat k - 1) + 1)%nat with k in Hr by lia.
      rewrite Hr. now apply ringNormal_unit.
Qed.

(** X11 for the second ring vertex of the default cone. *)
Lemma X11_witness :
  ((1 <= 32)%Z /\ 0 < 1 * 1 + 2 * 2 /\ (Z.of_nat 2 <= 32 + 2)%Z) /\
  exists a b c,
    vertexAt (snd (fst (coneArrays (mkConeParams (Fin 1) (Fin 2) 32)))) 2 =
      [Fin a; Fin b; Fin c] /\
    a * a + b * b + c * c = 1.
Proof.
  assert (H1 : (1 <= 32)%Z) by lia.
  assert (H2 : 0 < 1 * 1 + 2 * 2) by lra.
  assert (H3 : (Z.of_nat 2 <= 32 + 2)%Z) by (simpl; lia).
  split; [repeat split; assumption |].
  apply (X11_normals_are_unit 1 2 32 2 H1 H2 H3).
Defined.

(** ** The mesh follows the parameters *)

Lemma call_mesh_current (c : Call) this :
  mesh_current this -> mesh_current (after (call c this)).
Proof.
  intros Hm.
  assert (Hload : forall that, mesh_current (withCone that)).
  { intros that. right. destruct that. repeat split. }
  destruct c as [vertexOk fragmentOk linkOk info | | | | speed | show
                 | params | v | v | loop |]; simpl call.
  - destruct vertexOk; [| exact Hm].
    destruct fragmentOk; [| exact Hm].
    destruct linkOk; [| exact Hm].
    rewrite initialize_loaded, render_eq.
    specialize (Hload (set_program true this)).
    destruct this; exact Hload.
  - destruct this; exact Hm.
  - destruct this; exact Hm.
  - destruct this; exact Hm.
  - destruct this; exact Hm.
  - destruct this; exact Hm.
  - rewrite setConeParams_eq. right. destruct this. repeat split.
  - destruct (setStartAxis_eq v this) as [vertices ->].
    destruct this; exact Hm.
  - destruct (setEndAxis_eq v this) as [vertices ->].
    destruct this; exact Hm.
  - destruct this; exact Hm.
  - rewrite render_eq. destruct this; exact Hm.
Qed.

(** X12: after construction and every sequence of calls, either the cone
    has never been generated (the three cone buffers are null and there
    are 0 indices to draw) or the three cone buffers hold the arrays of
    the current parameters and the number of indices to draw is the
    length of the index array: the mesh on the GPU is never that of old
    parameters, and [drawElements] never asks for more indices than were
    uploaded. *)
Theorem X12_mesh_follows_parameters (cs : list Call) :
  let this := run cs (after (new true)) in
  mesh_current this /\
  match coneIndexBuffer this with
  | Some indices => coneVertexCount this = Z.of_nat (length indices)
  | None => coneVertexCount this = 0%Z
  end.
Proof.
  assert (H : mesh_current (run cs (after (new true)))).
  { assert (H0 : mesh_current (after (new true)))
      by (left; repeat split).
    revert H0. generalize (after (new true)).
    induction cs as [| c cs IH]; intros this H0; [exact H0 |].
    rewrite run_cons. apply IH. now apply call_mesh_current. }
  revert H. generalize (run cs (after (new true))). intros this H.
  cbv zeta. split; [exact H |].
  destruct H as [[_ [_ [Hi Hc]]] | [_ [_ [Hi Hc]]]]; rewrite Hi.
  - exact Hc.
  - rewrite Hc. unfold Uint16Array. now rewrite length_map.
Qed.

(** ** Axes and quaternions stay normalised *)

Lemma inverse_root_square (len : R) :
  0 < len -> 1 / sqrt len * (1 / sqrt len) * len = 1.
Proof.
  intros Hpos.
  assert (Hs : 0 < sqrt len) by (now apply sqrt_lt_R0).
  assert (Hss : sqrt len * sqrt len = len) by (apply sqrt_sqrt; lra).
  rewrite <- Hss at 3. field. lra.
Qed.

Lemma vec3_normalize_real (a b c : R) :
  vec3_unit_or_zero (vec3.normalize (mkVec3 (Fin a) (Fin b) (Fin c))).
Proof.
  unfold vec3.normalize; simpl. fin_arith.
  remember (a * a + b * b + c * c) as len eqn:Elen.
  assert (Hlen : 0 <= len) by (rewrite Elen; nra).
  destruct (Rlt_dec 0 len) as [Hpos | Hzero].
  - rewrite gtb_Fin_true by exact Hpos.
    rewrite sqrt_Fin by lra.
    assert (Hs : 0 < sqrt len) by (now apply sqrt_lt_R0).
    rewrite div_Fin by lra. fin_arith.
    do 3 eexists. split; [reflexivity |]. left.
    pose proof (inverse_root_square len Hpos) as Hu.
    set (u := 1 / sqrt len) in *.
    replace (a * u * (a * u) + b * u * (b * u) + c * u * (c * u))
      with (u * u * len) by (rewrite Elen; ring).
    exact Hu.
  - rewrite gtb_Fin_false by lra. fin_arith.
    assert (H0 : len = 0) by lra.
    do 3 eexists. split; [reflexivity |]. right.
    rewrite H0. repeat split; ring.
Qed.

Lemma quat_normalize_real (x y z w : R) :
  0 < x * x + y * y + z * z + w * w ->
  quat_unit (quat.normalize (mkQuat (Fin x) (Fin y) (Fin z) (Fin w))).
Proof.
  intros Hpos. unfold quat.normalize; simpl. fin_arith.
  remember (x * x + y * y + z * z + w * w) as len eqn:Elen.
  rewrite gtb_Fin_true by exact Hpos.
  rewrite sqrt_Fin by lra.
  assert (Hs : 0 < sqrt len) by (now apply sqrt_lt_R0).
  rewrite div_Fin by lra. fin_arith.
  unfold quat_unit; simpl.
  pose proof (inverse_root_square len Hpos) as Hu.
  set (u := 1 / sqrt len) in *.
  replace (x * u * (x * u) + y * u * (y * u) + z * u * (z * u) +
           w * u * (w * u))
    with (u * u * len) by (rewrite Elen; ring).
  exact Hu.
Qed.

(** The rotation from up to a vector that points down: always the half
    turn about the z axis. *)
Lemma rotationTo_up_downwards (a b c : R) :
  b < -0.999999 ->
  quat.rotationTo upVec (mkVec3 (Fin a) (Fin b) (Fin c)) =
  mkQuat (Fin 0) (Fin 0) (Fin 1) (Fin 0).
Proof.
  intros Hb.
  unfold quat.rotationTo, vec3.dot, vec3.cross, vec3.len, vec3.fromValues,
    upVec; simpl. fin_arith.
  rewrite ltb_Fin_true by lra.
  replace (0 * 0 - 0 * 1) with 0 by lra.
  replace (0 * 0 - 1 * 0) with 0 by lra.
  replace (1 * 1 - 0 * 0) with 1 by lra.
  fin_arith.
  replace (0 * 0 + 0 * 0 + 1 * 1) with 1 by lra.
  rewrite sqrt_Fin by lra. rewrite sqrt_1.
  rewrite ltb_Fin_false by lra.
  rewrite normalize_unit by lra.
  unfold quat.setAxisAngle, Num.PI; simpl. fin_arith.
  unfold Num.sin, Num.cos; simpl. fin_arith.
  replace (PI * 0.5) with (PI / 2) by lra.
  rewrite sin_PI2, cos_PI2.
  apply quat_eq; lra.
Qed.

(** The rotation from up to any vector of real components is a unit
    quaternion. *)
Lemma rotationTo_up_unit (a b c : R) :
  quat_unit (quat.rotationTo upVec (mkVec3 (Fin a) (Fin b) (Fin c))).
Proof.
  destruct (Rlt_dec b (-0.999999)) as [Hdown | Hnotdown].
  - rewrite rotationTo_up_downwards by exact Hdown.
    unfold quat_unit; simpl. lra.
  - unfold quat.rotationTo, vec3.dot, vec3.cross, vec3.fromValues, upVec;
      simpl. fin_arith.
    rewrite ltb_Fin_false by lra.
    destruct (Rlt_dec 0.999999 b) as [Hup | Hnotup].
    + rewrite gtb_Fin_true by lra. unfold quat_unit; simpl. lra.
    + rewrite gtb_Fin_false by lra.
      apply quat_normalize_real. nra.
Qed.

Lemma unit_or_zero_real (v : Vec3) : vec3_unit_or_zero v -> vec3_real v.
Proof. intros [a [b [c [Hv _]]]]. now exists a, b, c. Qed.

Lemma call_axes (c : Call) this :
  axis_ok c ->
  vec3_unit_or_zero (axis (startOrientation this)) ->
  vec3_unit_or_zero (axis (endOrientation this)) ->
  vec3_unit_or_zero (axis (startOrientation (after (call c this)))) /\
  vec3_unit_or_zero (axis (endOrientation (after (call c this)))).
Proof.
  intros Hc Hs He.
  destruct c as [vertexOk fragmentOk linkOk info | | | | speed | show
                 | params | v | v | loop |]; simpl call.
  - destruct vertexOk; [| now split].
    destruct fragmentOk; [| now split].
    destruct linkOk; [| now split].
    rewrite initialize_loaded, render_eq. destruct this; now split.
  - destruct this; now split.
  - destruct this; now split.
  - destruct this; now split.
  - destruct this; now split.
  - destruct this; now split.
  - rewrite setConeParams_eq. destruct this; now split.
  - destruct (setStartAxis_fields v this) as [this' [-> [Hs' [He' _]]]].
    simpl after. rewrite Hs', He'. simpl axis.
    destruct Hc as [a [b [c ->]]].
    split; [apply vec3_normalize_real | exact He].
  - destruct (setEndAxis_fields v this) as [this' [-> [Hs' [He' _]]]].
    simpl after. rewrite Hs', He'. simpl axis.
    destruct Hc as [a [b [c ->]]].
    split; [exact Hs | apply vec3_normalize_real].
  - destruct this; now split.
  - rewrite render_eq. destruct this; now split.
Qed.

(** After construction and calls that pass real vectors: the axes are
    normalised, the quaternions derived from them, and the table fresh. *)
Lemma run_normalised (cs : list Call) :
  Forall axis_ok cs ->
  let this := run cs (after (new true)) in
  vec3_unit_or_zero (axis (startOrientation this)) /\
  vec3_unit_or_zero (axis (endOrientation this)) /\
  quats_derived this /\ table_fresh this.
Proof.
  intros Hcs.
  assert (H0 : vec3_unit_or_zero (axis (startOrientation (after (new true))))
               /\ vec3_unit_or_zero (axis (endOrientation (after (new true))))
               /\ quats_derived (after (new true))
               /\ table_fresh (after (new true))).
  { destruct axes_new as [Hs He]. rewrite Hs, He.
    split; [exists 0, 1, 0; split; [reflexivity | left; lra] |].
    split; [exists 1, 0, 0; split; [reflexivity | left; lra] |].
    split; [split; reflexivity | reflexivity]. }
  revert H0. generalize (after (new true)).
  induction Hcs as [| c cs Hc Hcs IH]; intros this H0; [exact H0 |].
  cbv zeta. rewrite run_cons. apply IH.
  destruct H0 as [Hs [He [Hq Ht]]].
  destruct (call_axes c this Hc Hs He) as [Hs' He'].
  destruct (call_orientation c this Hq Ht) as [Hq' Ht'].
  split; [| split; [| split]]; assumption.
Qed.

(** X13: if every vector passed to [setStartAxis] and [setEndAxis] has
    real components, then after construction and every sequence of calls
    each stored axis has length 1 or is (0,0,0), and both quaternions are
    unit quaternions. *)
Theorem X13_axes_and_quaternions_normalised (cs : list Call) :
  Forall axis_ok cs ->
  let this := run cs (after (new true)) in
  vec3_unit_or_zero (axis (startOrientation this)) /\
  vec3_unit_or_zero (axis (endOrientation this)) /\
  quat_unit (quat (startOrientation this)) /\
  quat_unit (quat (endOrientation this)).
Proof.
  intros Hcs.
  destruct (run_normalised cs Hcs) as [Hs [He [[Hqs Hqe] _]]].
  revert Hs He Hqs Hqe. generalize (run cs (after (new true))).
  intros this Hs He Hqs Hqe. cbv zeta.
  split; [exact Hs |]. split; [exact He |].
  rewrite Hqs, Hqe.
  destruct Hs as [a [b [c [-> _]]]]. destruct He as [a' [b' [c' [-> _]]]].
  split; apply rotationTo_up_unit.
Qed.

(** X13 for the two sliders moved to (3,4,0) and to (0,0,0). *)
Lemma X13_witness :
  let cs := [SetStartAxis (mkVec3 (Fin 3) (Fin 4) (Fin 0));
             SetEndAxis zeroVec] in
  Forall axis_ok cs /\
  quat_unit (quat (startOrientation (run cs (after (new true))))) /\
  quat_unit (quat (endOrientation (run cs (after (new true))))).
Proof.
  intros cs.
  assert (H : Forall axis_ok cs).
  { repeat constructor.
    - now exists 3, 4, 0.
    - now exists 0, 0, 0. }
  split; [exact H |].
  apply (X13_axes_and_quaternions_normalised cs H).
Defined.

(** ** The ends of the interpolation *)

Lemma quat_unit_inv (q : Quat) :
  quat_unit q ->
  exists x y z w,
    q = mkQuat (Fin x) (Fin y) (Fin z) (Fin w) /\
    x * x + y * y + z * z + w * w = 1.
Proof.
  destruct q as [[x |] [y |] [z |] [w |]]; unfold quat_unit; simpl;
    try contradiction.
  intros H. now exists x, y, z, w.
Qed.

(** The dot product of two unit quaternions lies between -1 and 1. *)
Lemma unit_dot_bound (a1 a2 a3 a4 b1 b2 b3 b4 : R) :
  a1 * a1 + a2 * a2 + a3 * a3 + a4 * a4 = 1 ->
  b1 * b1 + b2 * b2 + b3 * b3 + b4 * b4 = 1 ->
  -1 <= a1 * b1 + a2 * b2 + a3 * b3 + a4 * b4 <= 1.
Proof.
  intros Ha Hb.
  pose proof (Rle_0_sqr (a1 - b1)) as H1. pose proof (Rle_0_sqr (a2 - b2)) as H2.
  pose proof (Rle_0_sqr (a3 - b3)) as H3. pose proof (Rle_0_sqr (a4 - b4)) as H4.
  pose proof (Rle_0_sqr (a1 + b1)) as G1. pose proof (Rle_0_sqr (a2 + b2)) as G2.
  pose proof (Rle_0_sqr (a3 + b3)) as G3. pose proof (Rle_0_sqr (a4 + b4)) as G4.
  unfold Rsqr in *. split; lra.
Qed.

(** The two coefficients of the interpolation at the ends. *)
Lemma slerp_coefficients (c : R) :
  0 <= c <= 1 ->
  ((if (Fin 1 - Fin c >? EPSILON)%num
    then ((Num.sin ((Fin 1 - Fin 0) * Num.acos (Fin c)) /
           Num.sin (Num.acos (Fin c)))%num,
          (Num.sin (Fin 0 * Num.acos (Fin c)) /
           Num.sin (Num.acos (Fin c)))%num)
    else ((Fin 1 - Fin 0)%num, Fin 0)) = (Fin 1, Fin 0)) /\
  ((if (Fin 1 - Fin c >? EPSILON)%num
    then ((Num.sin ((Fin 1 - Fin 1) * Num.acos (Fin c)) /
           Num.sin (Num.acos (Fin c)))%num,
          (Num.sin (Fin 1 * Num.acos (Fin c)) /
           Num.sin (Num.acos (Fin c)))%num)
    else ((Fin 1 - Fin 1)%num, Fin 1)) = (Fin 0, Fin 1)).
Proof.
  intros Hc. unfold EPSILON. rewrite !sub_Fin.
  destruct (Rlt_dec 0.000001 (1 - c)) as [Hfar | Hnear].
  - rewrite gtb_Fin_true by exact Hfar.
    rewrite acos_Fin by lra. rewrite !mul_Fin, !sin_Fin.
    assert (Hs : 0 < sin (acos c)).
    { destruct (acos_bound_lt c) as [H1 H2]; [lra |].
      now apply sin_gt_0. }
    rewrite !div_Fin by lra.
    replace ((1 - 0) * acos c) with (acos c) by ring.
    replace (0 * acos c) with 0 by ring.
    replace ((1 - 1) * acos c) with 0 by ring.
    replace (1 * acos c) with (acos c) by ring.
    rewrite sin_0.
    split; f_equal; apply Fin_eq; field; lra.
  - rewrite gtb_Fin_false by lra.
    split; f_equal; apply Fin_eq; lra.
Qed.

(** At 0 the interpolation is its first quaternion; at 1 it is its second
    quaternion, or the opposite of it when the two quaternions have a
    negative dot product. *)
Lemma slerp_ends (qa qb : Quat) :
  quat_unit qa -> quat_unit qb ->
  quat.slerp qa qb (Fin 0) = qa /\
  (quat.slerp qa qb (Fin 1) = qb \/ quat.slerp qa qb (Fin 1) = quat_neg qb).
Proof.
  intros Ha Hb.
  destruct (quat_unit_inv qa Ha) as [a1 [a2 [a3 [a4 [-> Hna]]]]].
  destruct (quat_unit_inv qb Hb) as [b1 [b2 [b3 [b4 [-> Hnb]]]]].
  pose proof (unit_dot_bound a1 a2 a3 a4 b1 b2 b3 b4 Hna Hnb) as Hd.
  unfold quat.slerp, quat_neg; simpl. fin_arith.
  set (d := a1 * b1 + a2 * b2 + a3 * b3 + a4 * b4) in *.
  destruct (Rlt_dec d 0) as [Hneg | Hpos].
  - rewrite ltb_Fin_true by exact Hneg. fin_arith.
    destruct (slerp_coefficients (- d)) as [H0 H1]; [lra |].
    rewrite !sub_Fin in H0, H1. rewrite H0, H1. fin_arith.
    split; [apply quat_eq; ring | right; apply quat_eq; ring].
  - rewrite ltb_Fin_false by lra. cbv iota beta. fin_arith.
    destruct (slerp_coefficients d) as [H0 H1]; [lra |].
    rewrite !sub_Fin in H0, H1. rewrite H0, H1. fin_arith.
    split; [apply quat_eq; ring | left; apply quat_eq; ring].
Qed.

(** X14: if every vector passed to [setStartAxis] and [setEndAxis] has
    real components, then after construction and every sequence of calls
    the first entry of the table of intermediate frames is the start
    quaternion and the last one is the end quaternion or its opposite
    (the same rotation), and so is the cone of a frame at progress 0 and
    at progress 1. *)
Theorem X14_table_ends_at_the_orientations (cs : list Call) :
  Forall axis_ok cs ->
  let this := run cs (after (new true)) in
  let qs := quat (startOrientation this) in
  let qe := quat (endOrientation this) in
  nth_error (intermediateFrames this) 0 = Some qs /\
  (nth_error (intermediateFrames this) 20 = Some qe \/
   nth_error (intermediateFrames this) 20 = Some (quat_neg qe)) /\
  quat.slerp qs qe (Fin 0) = qs /\
  (quat.slerp qs qe (Fin 1) = qe \/ quat.slerp qs qe (Fin 1) = quat_neg qe).
Proof.
  intros Hcs.
  destruct (run_normalised cs Hcs) as [Hs [He [[Hqs Hqe] Ht]]].
  revert Hs He Hqs Hqe Ht. generalize (run cs (after (new true))).
  intros this Hs He Hqs Hqe Ht. cbv zeta.
  assert (Hus : quat_unit (quat (startOrientation this))).
  { rewrite Hqs. destruct Hs as [a [b [c [-> _]]]]. apply rotationTo_up_unit. }
  assert (Hue : quat_unit (quat (endOrientation this))).
  { rewrite Hqe. destruct He as [a [b [c [-> _]]]]. apply rotationTo_up_unit. }
  destruct (slerp_ends _ _ Hus Hue) as [H0 H1].
  unfold table_fresh in Ht. rewrite Ht.
  rewrite (sampleTable_nth _ _ 0) by lia.
  rewrite (sampleTable_nth _ _ 20) by lia.
  replace (INR 0 / 20) with 0 by (simpl; lra).
  replace (INR 20 / 20) with 1 by (rewrite INR_20; lra).
  rewrite H0.
  split; [reflexivity |].
  split; [destruct H1 as [-> | ->]; [now left | now right] |].
  split; [reflexivity | exact H1].
Qed.

(** X14 for the start axis moved to (1,1,0). *)
Lemma X14_witness :
  let cs := [SetStartAxis (mkVec3 (Fin 1) (Fin 1) (Fin 0))] in
  Forall axis_ok cs /\
  nth_error (intermediateFrames (run cs (after (new true)))) 0 =
  Some (quat (startOrientation (run cs (after (new true))))).
Proof.
  intros cs.
  assert (H : Forall axis_ok cs)
    by (repeat constructor; now exists 1, 1, 0).
  split; [exact H |].
  apply (X14_table_ends_at_the_orientations cs H).
Defined.

(** The interpolation of two unit quaternions at a real parameter has
    real components. *)
Lemma slerp_real (qa qb : Quat) (t : R) :
  quat_unit qa -> quat_unit qb -> quat_real (quat.slerp qa qb (Fin t)).
Proof.
  intros Ha Hb.
  destruct (quat_unit_inv qa Ha) as [a1 [a2 [a3 [a4 [-> Hna]]]]].
  destruct (quat_unit_inv qb Hb) as [b1 [b2 [b3 [b4 [-> Hnb]]]]].
  pose proof (unit_dot_bound a1 a2 a3 a4 b1 b2 b3 b4 Hna Hnb) as Hd.
  assert (Hscales : forall c, 0 <= c <= 1 ->
            exists s0 s1,
              (if (Fin (1 - c) >? EPSILON)%num
               then ((Num.sin (Fin (1 - t) * Num.acos (Fin c)) /
                      Num.sin (Num.acos (Fin c)))%num,
                     (Num.sin (Fin t * Num.acos (Fin c)) /
                      Num.sin (Num.acos (Fin c)))%num)
               else (Fin (1 - t), Fin t)) = (Fin s0, Fin s1)).
  { intros c Hc. unfold EPSILON.
    destruct (Rlt_dec 0.000001 (1 - c)) as [Hfar | Hnear].
    - rewrite gtb_Fin_true by exact Hfar.
      rewrite acos_Fin by lra. rewrite !mul_Fin, !sin_Fin.
      assert (Hs : 0 < sin (acos c)).
      { destruct (acos_bound_lt c) as [H1 H2]; [lra |].
        now apply sin_gt_0. }
      rewrite !div_Fin by lra. now do 2 eexists.
    - rewrite gtb_Fin_false by lra. now do 2 eexists. }
  unfold quat.slerp; simpl. fin_arith.
  set (d := a1 * b1 + a2 * b2 + a3 * b3 + a4 * b4) in *.
  destruct (Rlt_dec d 0) as [Hneg | Hpos].
  - rewrite ltb_Fin_true by exact Hneg. cbv iota beta. fin_arith.
    destruct (Hscales (- d)) as [s0 [s1 Hs]]; [lra |].
    rewrite Hs. fin_arith. repeat split.
  - rewrite ltb_Fin_false by lra. cbv iota beta. fin_arith.
    destruct (Hscales d) as [s0 [s1 Hs]]; [lra |].
    rewrite Hs. fin_arith. repeat split.
Qed.

(** X15: if every vector passed to [setStartAxis] and [setEndAxis] has
    real components, then after construction and every sequence of calls
    every entry of the table of intermediate frames has real components,
    and so has the sample at every real progress: no NaN reaches a draw
    call through a quaternion. *)
Theorem X15_no_nan_in_samples (cs : list Call) :
  Forall axis_ok cs ->
  let this := run cs (after (new true)) in
  Forall quat_real (intermediateFrames this) /\
  forall t : R,
    quat_real (quat.slerp (quat (startOrientation this))
                          (quat (endOrientation this)) (Fin t)).
Proof.
  intros Hcs.
  destruct (run_normalised cs Hcs) as [Hs [He [[Hqs Hqe] Ht]]].
  revert Hs He Hqs Hqe Ht. generalize (run cs (after (new true))).
  intros this Hs He Hqs Hqe Ht. cbv zeta.
  assert (Hus : quat_unit (quat (startOrientation this))).
  { rewrite Hqs. destruct Hs as [a [b [c [-> _]]]]. apply rotationTo_up_unit. }
  assert (Hue : quat_unit (quat (endOrientation this))).
  { rewrite Hqe. destruct He as [a [b [c [-> _]]]]. apply rotationTo_up_unit. }
  split; [| intros t; now apply slerp_real].
  unfold table_fresh in Ht. rewrite Ht. unfold sampleTable.
  apply Forall_map, Forall_forall. intros i _.
  unfold Num.of_nat. rewrite div_Fin by (rewrite INR_20; lra).
  now apply slerp_real.
Qed.

(** X15 for the antiparallel axes. *)
Lemma X15_witness :
  let cs := [SetStartAxis upVec; SetEndAxis downVec] in
  Forall axis_ok cs /\
  Forall quat_real (intermediateFrames (run cs (after (new true)))).
Proof.
  intros cs.
  assert (H : Forall axis_ok cs).
  { repeat constructor.
    - now exists 0, 1, 0.
    - now exists 0, (-1), 0. }
  split; [exact H |].
  exact (proj1 (X15_no_nan_in_samples cs H)).
Defined.

(** ** The direction vectors follow the axes *)

Lemma setStartAxis_directions v this :
  exists this',
    setStartAxis v this = Returned tt this' /\
    directionVectorBuffer this' = Some (directionVertices this') /\
    coneParams this' = coneParams this.
Proof.
  unfold setStartAxis, bind at 1 2 3, read at 1, assign at 1.
  rewrite updateOrientationQuaternions_eq.
  rewrite generateDirectionVectors_fresh.
  eexists. split; [reflexivity |]. destruct this. split; reflexivity.
Qed.

Lemma setEndAxis_directions v this :
  exists this',
    setEndAxis v this = Returned tt this' /\
    directionVectorBuffer this' = Some (directionVertices this') /\
    coneParams this' = coneParams this.
Proof.
  unfold setEndAxis, bind at 1 2 3, read at 1, assign at 1.
  rewrite updateOrientationQuaternions_eq.
  rewrite generateDirectionVectors_fresh.
  eexists. split; [reflexivity |]. destruct this. split; reflexivity.
Qed.

Lemma call_directions (c : Call) this :
  directions_along_axes this -> directions_along_axes (after (call c this)).
Proof.
  intros Hd.
  destruct c as [vertexOk fragmentOk linkOk info | | | | speed | show
                 | params | v | v | loop |]; simpl call.
  - destruct vertexOk; [| exact Hd].
    destruct fragmentOk; [| exact Hd].
    destruct linkOk; [| exact Hd].
    rewrite initialize_loaded, render_eq.
    destruct this. unfold directions_along_axes; simpl.
    eexists. reflexivity.
  - destruct this; exact Hd.
  - destruct this; exact Hd.
  - destruct this; exact Hd.
  - destruct this; exact Hd.
  - destruct this; exact Hd.
  - rewrite setConeParams_eq. destruct this; exact Hd.
  - destruct (setStartAxis_directions v this) as [this' [-> [Hb _]]].
    unfold directions_along_axes; simpl after. rewrite Hb.
    eexists. reflexivity.
  - destruct (setEndAxis_directions v this) as [this' [-> [Hb _]]].
    unfold directions_along_axes; simpl after. rewrite Hb.
    eexists. reflexivity.
  - destruct this; exact Hd.
  - rewrite render_eq. destruct this; exact Hd.
Qed.

(** X16: after construction and every sequence of calls the buffer of the
    two direction vectors, once it exists, holds segments from the origin
    along the two current axes.  [setStartAxis] and [setEndAxis] scale
    them by one and a half times the current height; [setConeParams]
    leaves the buffer as it is, so that after a change of height the
    segments keep their old length until an axis is set again. *)
Theorem X16_direction_vectors_follow_axes (cs : list Call)
        (v : Vec3) (params : PartialConeParams) :
  let this := run cs (after (new true)) in
  directions_along_axes this /\
  directionVectorBuffer (after (setStartAxis v this)) =
    Some (directionVertices (after (setStartAxis v this))) /\
  directionVectorBuffer (after (setEndAxis v this)) =
    Some (directionVertices (after (setEndAxis v this))) /\
  directionVectorBuffer (after (setConeParams params this)) =
    directionVectorBuffer this.
Proof.
  assert (H : directions_along_axes (run cs (after (new true)))).
  { assert (H0 : directions_along_axes (after (new true))) by exact I.
    revert H0. generalize (after (new true)).
    induction cs as [| c cs IH]; intros this H0; [exact H0 |].
    rewrite run_cons. apply IH. now apply call_directions. }
  revert H. generalize (run cs (after (new true))). intros this H.
  cbv zeta. split; [exact H |].
  destruct (setStartAxis_directions v this) as [s [-> [Hs _]]].
  destruct (setEndAxis_directions v this) as [e [-> [He _]]].
  rewrite setConeParams_eq.
  split; [exact Hs |]. split; [exact He |]. now destruct this.
Qed.

(** ** The cone points along its axis *)




(** X18: a unit vector of real components whose y component is 0.9999991
    or more gets the identity quaternion, and one whose y component is
    -0.9999991 or less gets the half turn about the z axis, whatever its
    x and z components: [setStartAxis] stores the vector as the axis, but
    the model matrix of the derived quaternion maps the y axis onto
    exactly (0,1,0) or (0,-1,0).  The threshold of [rotationTo] is
    0.999999; the bound here leaves out the y components within one
    rounding step of a 32-bit store of that threshold, for which the
    stored component can fall on either side of it. *)
Theorem X18_axes_near_the_poles_snap (a b c : R) this :
  a * a + b * b + c * c = 1 ->
  0.9999991 <= Rabs b ->
  exists this',
    setStartAxis (mkVec3 (Fin a) (Fin b) (Fin c)) this = Returned tt this' /\
    axis (startOrientation this') = mkVec3 (Fin a) (Fin b) (Fin c) /\
    let q := quat (startOrientation this') in
    let m := modelMatrix q in
    e4 m = Fin 0 /\ e6 m = Fin 0 /\ e7 m = Fin 0 /\
    ((0 < b /\ q = mkQuat (Fin 0) (Fin 0) (Fin 0) (Fin 1) /\ e5 m = Fin 1) \/
     (b < 0 /\ q = mkQuat (Fin 0) (Fin 0) (Fin 1) (Fin 0) /\ e5 m = Fin (-1))).
Proof.
  intros Hunit Hb.
  assert (Hv : vec3.normalize (mkVec3 (Fin a) (Fin b) (Fin c)) =
               mkVec3 (Fin a) (Fin b) (Fin c))
    by (now apply normalize_unit).
  destruct (setStartAxis_fields (mkVec3 (Fin a) (Fin b) (Fin c)) this)
    as [this' [He [Hs _]]].
  rewrite Hv in Hs.
  exists this'. split; [exact He |]. rewrite Hs.
  split; [reflexivity |]. simpl quat.
  destruct (Rlt_dec 0 b) as [Hpos | Hneg].
  - assert (Hup : 0.999999 < b) by (rewrite Rabs_right in Hb; lra).
    assert (Hq : quat.rotationTo upVec (mkVec3 (Fin a) (Fin b) (Fin c)) =
                 mkQuat (Fin 0) (Fin 0) (Fin 0) (Fin 1)).
    { unfold quat.rotationTo, vec3.dot, vec3.fromValues, upVec; simpl.
      fin_arith.
      rewrite ltb_Fin_false by lra. now rewrite gtb_Fin_true by lra. }
    rewrite Hq. cbv zeta.
    unfold modelMatrix, mat4.multiply, mat4.fromQuat, mat4.create; simpl.
    fin_arith.
    split; [apply Fin_eq; lra |]. split; [apply Fin_eq; lra |].
    split; [apply Fin_eq; lra |].
    left. split; [exact Hpos |]. split; [reflexivity | apply Fin_eq; lra].
  - assert (Hdown : b < -0.999999).
    { destruct (Rle_dec 0 b) as [H0 | H0].
      - rewrite Rabs_right in Hb; lra.
      - rewrite Rabs_left in Hb; lra. }
    rewrite (rotationTo_up_downwards a b c Hdown). cbv zeta.
    unfold modelMatrix, mat4.multiply, mat4.fromQuat, mat4.create; simpl.
    fin_arith.
    split; [apply Fin_eq; lra |]. split; [apply Fin_eq; lra |].
    split; [apply Fin_eq; lra |].
    right. split; [lra |]. split; [reflexivity | apply Fin_eq; lra].
Qed.

(** X18 for the axis (0,-1,0). *)
Lemma X18_witness :
  (0 * 0 + -1 * -1 + 0 * 0 = 1 /\ 0.9999991 <= Rabs (-1)) /\
  exists this',
    setStartAxis downVec fieldInitialisers = Returned tt this' /\
    axis (startOrientation this') = downVec /\
    quat (startOrientation this') = mkQuat (Fin 0) (Fin 0) (Fin 1) (Fin 0).
Proof.
  assert (H1 : 0 * 0 + -1 * -1 + 0 * 0 = 1) by lra.
  assert (H2 : 0.9999991 <= Rabs (-1)) by (rewrite Rabs_left; lra).
  split; [now split |].
  destruct (X18_axes_near_the_poles_snap 0 (-1) 0 fieldInitialisers H1 H2)
    as [this' [He [Ha [_ [_ [_ [[Hpos _] | [_ [Hq _]]]]]]]]].
  - exfalso. lra.
  - exists this'. split; [exact He |]. split; [exact Ha | exact Hq].
Defined.

(** ** Playing once, in closed form *)

(** X19: without loop, playing from progress 0, let frame [k] be the
    first whose step brings the progress to 1 or more, by the code's own
    comparison.  After [n <= k] frames the clock is Playing and the
    progress is the sum accumulated in [n] steps from 0, with no clamping
    on the way; after more than [k] frames the clock is Stopped with
    progress 1. *)
Theorem X19_play_once_closed_form (k n : nat) this :
  isAnimating this = true ->
  loopAnimation this = false ->
  animationProgress this = Fin 0 ->
  (forall j, (j < k)%nat ->
     (animationProgress (frames j this) + animationSpeed this >=? Fin 1)%num
     = false) ->
  (animationProgress (frames k this) + animationSpeed this >=? Fin 1)%num
  = true ->
  isAnimating (frames n this) = (n <=? k)%nat /\
  animationProgress (frames n this) =
    if (n <=? k)%nat then accumulated n (animationSpeed this) else Fin 1.
Proof.
  intros Ha Hl Hp Hbelow Hreach.
  set (s := animationSpeed this) in *.
  assert (Hc : clock_of this = mkClock (Fin 0) true s false)
    by (unfold clock_of; fold s; now rewrite Ha, Hl, Hp).
  pose proof (clock_rise k s false (clock_of this) Hc
                (below_on_clock k this Hbelow)) as Hrise.
  rewrite playing_clock, progress_clock, clock_frames_iter.
  destruct (n <=? k)%nat eqn:Hn.
  - apply Nat.leb_le in Hn. rewrite (Hrise n Hn). now split.
  - apply Nat.leb_gt in Hn.
    assert (Hstop : Nat.iter (S k) tick (clock_of this) =
                    mkClock (Fin 1) false s false).
    { change (Nat.iter (S k) tick (clock_of this))
        with (tick (Nat.iter k tick (clock_of this))).
      rewrite progress_clock, clock_frames_iter in Hreach.
      rewrite (Hrise k (Nat.le_refl k)) in Hreach |- *.
      cbn [progress] in Hreach.
      unfold tick. cbn [progress playing speed looping]. cbv zeta.
      now rewrite Hreach. }
    replace n with ((n - S k) + S k)%nat by lia.
    rewrite Nat.iter_add, Hstop.
    rewrite iter_fixed by (now apply tick_stopped).
    now split.
Qed.

(** X19 at speed 0.3: the fourth frame is the first to reach 1, so after
    five frames the clock is Stopped with progress 1. *)
Lemma X19_witness :
  let this :=
    run [SetLoopAnimation false; SetAnimationSpeed (Fin 0.3); StartAnimation]
        (after (new true)) in
  (isAnimating this = true /\ loopAnimation this = false /\
   animationProgress this = Fin 0 /\
   (animationProgress (frames 0 this) + animationSpeed this >=? Fin 1)%num
   = false /\
   (animationProgress (frames 1 this) + animationSpeed this >=? Fin 1)%num
   = false /\
   (animationProgress (frames 2 this) + animationSpeed this >=? Fin 1)%num
   = false /\
   (animationProgress (frames 3 this) + animationSpeed this >=? Fin 1)%num
   = true) /\
  isAnimating (frames 5 this) = false /\
  animationProgress (frames 5 this) = Fin 1.
Proof.
  intros this.
  assert (Hc : clock_of this = mkClock (Fin 0) true (Fin 0.3) false)
    by (unfold this; rewrite run_clock, clock_of_new; reflexivity).
  revert Hc. generalize this. clear this. intros this Hc.
  assert (Ha : isAnimating this = true) by (now rewrite playing_clock, Hc).
  assert (Hl : loopAnimation this = false) by (now rewrite looping_clock, Hc).
  assert (Hs : animationSpeed this = Fin 0.3) by (now rewrite speed_clock, Hc).
  assert (Hp : animationProgress this = Fin 0)
    by (now rewrite progress_clock, Hc).
  assert (H0 : (animationProgress (frames 0 this) + animationSpeed this
                >=? Fin 1)%num = false).
  { rewrite frames_0, Hs, Hp, add_Fin. apply geb_Fin_false. lra. }
  assert (K1 : clock_of (frames 1 this) =
               mkClock (Fin (0 + 0.3)) true (Fin 0.3) false).
  { rewrite clock_frames, frames_0, Hc. now rewrite tick_below by lra. }
  assert (H1 : (animationProgress (frames 1 this) + animationSpeed this
                >=? Fin 1)%num = false).
  { rewrite Hs, progress_clock, K1. cbn [progress].
    rewrite add_Fin. apply geb_Fin_false. lra. }
  assert (K2 : clock_of (frames 2 this) =
               mkClock (Fin (0 + 0.3 + 0.3)) true (Fin 0.3) false).
  { rewrite clock_frames, K1. now rewrite tick_below by lra. }
  assert (H2 : (animationProgress (frames 2 this) + animationSpeed this
                >=? Fin 1)%num = false).
  { rewrite Hs, progress_clock, K2. cbn [progress].
    rewrite add_Fin. apply geb_Fin_false. lra. }
  assert (K3 : clock_of (frames 3 this) =
               mkClock (Fin (0 + 0.3 + 0.3 + 0.3)) true (Fin 0.3) false).
  { rewrite clock_frames, K2. now rewrite tick_below by lra. }
  assert (H3 : (animationProgress (frames 3 this) + animationSpeed this
                >=? Fin 1)%num = true).
  { rewrite Hs, progress_clock, K3. cbn [progress].
    rewrite add_Fin. apply geb_Fin_true. lra. }
  assert (Hbelow : forall j, (j < 3)%nat ->
     (animationProgress (frames j this) + animationSpeed this >=? Fin 1)%num
     = false).
  { intros j Hj. destruct j as [| [| [| j]]];
      [exact H0 | exact H1 | exact H2 | lia]. }
  split; [repeat split; assumption |].
  exact (X19_play_once_closed_form 3 5 this Ha Hl Hp Hbelow H3).
Defined.

(** ** The translucency of the trail *)

Lemma trailAlpha_bounds (i n : nat) :
  (i < n)%nat -> exists x, trailAlpha i n = Fin x /\ 0.15 <= x < 0.45.
Proof.
  intros Hi. rewrite trailAlpha_Fin by lia.
  eexists. split; [reflexivity |].
  assert (Hn : 0 < INR n) by (apply lt_0_INR; lia).
  assert (H0 : 0 <= INR i) by apply pos_INR.
  assert (Hlt : INR i < INR n) by (now apply lt_INR).
  assert (Hq0 : 0 <= INR i / INR n).
  { unfold Rdiv. apply Rmult_le_pos; [exact H0 |].
    apply Rlt_le. now apply Rinv_0_lt_compat. }
  assert (Hq1 : INR i / INR n < 1).
  { apply (Rmult_lt_reg_r (INR n)); [exact Hn |].
    unfold Rdiv. rewrite Rmult_assoc, Rinv_l by lra. lra. }
  lra.
Qed.

(** X20: in every frame of an object with a program, the cones of the
    trail are translucent, each with a real alpha from 0.15 up to but not
    reaching 0.45, and the one cone drawn otherwise is opaque; the five
    lines come first in both cases. *)
Theorem X20_trail_is_translucent this :
  program this = true ->
  exists this',
    render this = Returned tt this' /\
    firstn 5 (canvas this') = lineDraws /\
    if showIntermediateFrames this && negb (isAnimating this)
    then Forall trail_call (canvas this')
    else Forall opaque_call (canvas this').
Proof.
  intros Hp. eexists. split; [apply render_eq |].
  assert (Hc : canvas
                 (set_isAnimating (playing (tick (clock_of this)))
                    (set_animationProgress (progress (tick (clock_of this)))
                       (set_canvas (frameDraws this) this))) =
               lineDraws ++ coneDraws this).
  { unfold frameDraws. rewrite Hp. now destruct this. }
  rewrite Hc. split; [reflexivity |].
  assert (Hlines1 : Forall trail_call lineDraws) by (repeat constructor).
  assert (Hlines2 : Forall opaque_call lineDraws) by (repeat constructor).
  unfold coneDraws.
  destruct (showIntermediateFrames this && negb (isAnimating this)).
  - apply Forall_app. split; [exact Hlines1 |].
    unfold trailDraws. apply Forall_map, Forall_forall.
    intros [i q] Hin. apply in_combine_l in Hin. apply in_seq in Hin.
    simpl. apply trailAlpha_bounds. lia.
  - apply Forall_app. split; [exact Hlines2 |].
    repeat constructor.
Qed.

(** X20 on the initialised object, which shows its trail: the frame
    issues 26 draw calls, the five lines first, and each cone of the
    trail is translucent. *)
Lemma X20_witness :
  let this := run [Initialize true true true ""] (after (new true)) in
  program this = true /\
  exists this',
    render this = Returned tt this' /\
    length (canvas this') = 26%nat /\
    firstn 5 (canvas this') = lineDraws /\
    Forall trail_call (canvas this').
Proof.
  intros this.
  assert (H : program this = true /\ isAnimating this = false /\
              showIntermediateFrames this = true /\
              length (intermediateFrames this) = 21%nat).
  { unfold this. split; [| split; [| split]].
    - rewrite run_cons, run_nil.
      change (call (Initialize true true true ""))
        with (initialize true true true "").
      apply (initialize_fields "" (after (new true))).
    - rewrite run_cons, run_nil.
      rewrite playing_clock, call_clock, clock_of_new. reflexivity.
    - rewrite run_cons, run_nil.
      change (call (Initialize true true true ""))
        with (initialize true true true "").
      destruct (initialize_fields "" (after (new true)))
        as [_ [_ [_ [_ Hs]]]].
      cbv zeta in Hs. rewrite Hs. reflexivity.
    - apply run_table_length. }
  revert H. generalize this. clear this.
  intros this [Hprog [Ha [Hs Hlen]]].
  split; [exact Hprog |].
  destruct (X20_trail_is_translucent this Hprog) as [this' [Hr [Hc Hall]]].
  exists this'. split; [exact Hr |].
  rewrite Ha, Hs in Hall.
  split; [| split; [exact Hc | exact Hall]].
  assert (Hcanvas : canvas this' = frameDraws this).
  { rewrite render_eq in Hr. injection Hr as <-. now destruct this. }
  rewrite Hcanvas. unfold frameDraws.
  rewrite Hprog, length_app, coneDraws_length, Ha, Hs, Hlen.
  reflexivity.
Defined.
